(** * Steam-locomotive simulator: the transfer-function pipeline, the sampling
    policy and the two delivery queues, embedded from the JavaScript sources.

    Conventions of the embedding.
    - A JavaScript number that carries a physical quantity or a simulated
      time is a rational [Q] with exact arithmetic; [===] on such numbers is
      [Qeq_bool].  What is proved of these numbers are equations that name
      the expression the source evaluates, comparisons and bounds; none
      rests on a sum or a quotient being exact.  What depends on the
      rounding of IEEE doubles itself, the accumulated time and its
      millisecond stamp, is stated on binary64 floats ([Module Double]).
    - Counters ([numSends], [numIterations]) are integers [Z]; a counter of
      [totSent], which [++] can turn into NaN, is a [Counter].
    - Arrays are lists and [usedIds], a [Set], is a [gset string].  The plain
      objects [model.history] and [totSent] are the [gmap string _] of their
      own properties; a name that has no own property but names a member of
      Object.prototype ([inherited]) reads as that member, not as undefined.
    - Module-level mutable variables become fields of a world record that
      every handler takes and returns.  Outgoing I/O (socket, HTTP, timers,
      UAA requests) is appended to an outbox in program order; incoming
      callbacks are events.
    - Logging has no effect on any of this and is left out. *)

From Stdlib Require Import QArith Qminmax Qabs Qround ZArith Lia Lqa.
From Stdlib Require Floats.PrimFloat Floats.FloatOps Floats.SpecFloat.
From stdpp Require Import gmap strings list pretty.

Local Open Scope list_scope.

(** ** Comparisons on numbers *)

Definition Qltb (x y : Q) : bool := negb (Qle_bool y x).

(** ** Plain objects *)

(** The names of the members of Object.prototype, which every object created
    by [{}] inherits. *)
Definition Object_prototype : list string :=
  ["constructor"; "__defineGetter__"; "__defineSetter__"; "hasOwnProperty";
   "__lookupGetter__"; "__lookupSetter__"; "isPrototypeOf";
   "propertyIsEnumerable"; "toString"; "valueOf"; "__proto__";
   "toLocaleString"].

(** Whether [object[key]], for a key that is no own property of the object,
    is an inherited member rather than undefined. *)
Definition inherited (key : string) : bool :=
  bool_decide (key ∈ Object_prototype).

(** ** config/simulator_constants.js *)

Module constants.
Local Open Scope Q_scope.

Definition LOCOMOTIVE_ID : string := "locomotive_topcoder".
Definition EPS : Q := 1 # 1000000000.
Definition NUM_ITERATIONS : Z := 100000.
Definition MAX_NUM_SENDS_PER_KEY : Z := 100.
Definition SEND_INTERVAL : Q := 100.
Definition DT : Q := 1 # 10.
Definition X1 : Q := 42520575 # 100.
Definition X2 : Q := 325000.
Definition X3 : Q := 17 # 10.
Definition FUEL_ADD_AMT : Q := 1.
Definition MAX_FUEL_MASS_IN_FIRE_CHAMBER : Q := 10.
Definition PRESSURE_MULTIPLIER : Q := 2.
Definition FUEL_BURN_AMT : Q := 1 # 10.
Definition INITIAL_FUEL_MASS_IN_TENDER : Q := 12700.
Definition LOCOMOTIVE_OWN_MASS : Q := 500000.
Definition MAX_ALLOWED_PRESSURE : Q := 21800000000007 # 1000000000000.
Definition MAX_ALLOWED_SPEED : Q := 2741731 # 100000.
Definition MIN_ALLOWED_FUEL_MASS_IN_TENDER : Q := 2800.
Definition WAIT_SECONDS_BETWEEN_FAILED_REQUESTS : Z := 5.
Definition MAX_NODES_TO_QUEUE_PER_SEND : nat := 10.
End constants.

Ltac unfold_constants :=
  unfold constants.EPS, constants.SEND_INTERVAL, constants.DT,
    constants.FUEL_ADD_AMT, constants.MAX_FUEL_MASS_IN_FIRE_CHAMBER,
    constants.PRESSURE_MULTIPLIER, constants.FUEL_BURN_AMT,
    constants.INITIAL_FUEL_MASS_IN_TENDER, constants.LOCOMOTIVE_OWN_MASS,
    constants.MAX_NUM_SENDS_PER_KEY in *.

(** ** The simulation state ([model.state]) *)

Record State : Type := mkState {
  distance : Q;
  fuelMassBurning : Q;
  fuelMassInTender : Q;
  fuelMassInFireChamber : Q;
  locomotiveOwnMass : Q;
  pressure : Q;
  speed : Q;
  time : Q
}.

Definition initialState : State :=
  {| distance := 0;
     fuelMassBurning := 0;
     fuelMassInTender := constants.INITIAL_FUEL_MASS_IN_TENDER;
     fuelMassInFireChamber := 0;
     locomotiveOwnMass := constants.LOCOMOTIVE_OWN_MASS;
     pressure := 0;
     speed := 0;
     time := 0 |}.

(** Field assignments, [res.f = v] and [{ ...state, f: v }]. *)

Definition set_fuelMassBurning (v : Q) (s : State) : State :=
  mkState (distance s) v (fuelMassInTender s) (fuelMassInFireChamber s)
          (locomotiveOwnMass s) (pressure s) (speed s) (time s).

Definition set_fuelMassInTender (v : Q) (s : State) : State :=
  mkState (distance s) (fuelMassBurning s) v (fuelMassInFireChamber s)
          (locomotiveOwnMass s) (pressure s) (speed s) (time s).

Definition set_fuelMassInFireChamber (v : Q) (s : State) : State :=
  mkState (distance s) (fuelMassBurning s) (fuelMassInTender s) v
          (locomotiveOwnMass s) (pressure s) (speed s) (time s).

Definition set_pressure (v : Q) (s : State) : State :=
  mkState (distance s) (fuelMassBurning s) (fuelMassInTender s)
          (fuelMassInFireChamber s) (locomotiveOwnMass s) v (speed s) (time s).

Definition set_speed (v : Q) (s : State) : State :=
  mkState (distance s) (fuelMassBurning s) (fuelMassInTender s)
          (fuelMassInFireChamber s) (locomotiveOwnMass s) (pressure s) v (time s).

Definition set_distance (v : Q) (s : State) : State :=
  mkState v (fuelMassBurning s) (fuelMassInTender s)
          (fuelMassInFireChamber s) (locomotiveOwnMass s) (pressure s) (speed s) (time s).

Definition set_time (v : Q) (s : State) : State :=
  mkState (distance s) (fuelMassBurning s) (fuelMassInTender s)
          (fuelMassInFireChamber s) (locomotiveOwnMass s) (pressure s) (speed s) v.

(** ** [model.processes]: the three transfer functions *)

Module processes.
Local Open Scope Q_scope.

(** 'Fireman' *)
Definition Fireman (state : State) : State :=
    if Qltb (fuelMassInTender state) 0
       || Qltb constants.MAX_FUEL_MASS_IN_FIRE_CHAMBER (fuelMassInFireChamber state)
    then state
    else
      set_fuelMassInFireChamber
        (fuelMassInFireChamber state + constants.FUEL_ADD_AMT)
        (set_fuelMassInTender
           (fuelMassInTender state - constants.FUEL_ADD_AMT) state).

(** 'Fire Chamber': [res] is a copy of the state, assigned field by field
    in the order of the source. *)
Definition FireChamber (state : State) : State :=
    let res := state in
    let res :=
      if Qltb (fuelMassBurning res) (fuelMassInFireChamber res)
      then set_fuelMassBurning
             (Qmin (fuelMassInFireChamber res)
                   (constants.FUEL_ADD_AMT + fuelMassBurning res)) res
      else res in
    let res :=
      set_pressure (constants.PRESSURE_MULTIPLIER * fuelMassBurning res) res in
    let res :=
      set_fuelMassBurning
        (Qmax 0 (fuelMassBurning res - constants.FUEL_BURN_AMT)) res in
    let res :=
      set_fuelMassInFireChamber
        (Qmax 0 (fuelMassInFireChamber res - constants.FUEL_BURN_AMT)) res in
    res.

(** 'Movement'.  The division is that of [Q]: it is the quotient of the
    source for every mass other than zero, which is every mass the
    simulation reaches.  At mass zero, where JavaScript yields an infinity
    or NaN, it gives 0, and nothing is claimed of the stage there. *)
Definition Movement (state : State) : State :=
    let mass := locomotiveOwnMass state + fuelMassInTender state
                + fuelMassInFireChamber state in
    let a := (constants.X1 * pressure state - constants.X2 * speed state) / mass in
    let a := if Qeq_bool (speed state) 0 && Qltb (Qabs a) constants.X3
             then 0 else a in
    set_time (time state + constants.DT)
      (set_distance (distance state + constants.DT * speed state)
         (set_speed (speed state + constants.DT * a) state)).

Definition all : list (State -> State) := [Fireman; FireChamber; Movement].
End processes.

(** [model.processes.forEach(p => state = p.transferFunction(state))] *)
Definition advance (state : State) : State :=
  fold_left (fun st f => f st) processes.all state.

Fixpoint iterate (n : nat) (state : State) : State :=
  match n with
  | O => state
  | S k => iterate k (advance state)
  end.

(** States the pipeline can produce from the initial state. *)
Inductive reachable : State -> Prop :=
| reachable_init : reachable initialState
| reachable_step s : reachable s -> reachable (advance s).

(** ** Queue nodes, credentials and outgoing I/O *)

(** [{ key: Helper.getId(), data }] *)
Record Node (D : Type) : Type := mkNode { key : string; data : D }.
Arguments mkNode {D} _ _.
Arguments key {D} _.
Arguments data {D} _.

Definition keys {D : Type} (l : list (Node D)) : list string := key <$> l.

(** The alert record built by [model.toAsset]: [{ key, val, time, msg }]. *)
Record AssetData : Type := mkAssetData {
  a_key : string;
  a_val : Q;
  a_time : Q;
  a_msg : string
}.

(** One element of the request body of the asset service. *)
Record AssetMessage : Type := mkAssetMessage {
  m_uri : string;
  m_locomotiveId : string;
  m_timestamp : Z;
  m_name : string;
  m_val : Q;
  m_msg : string
}.

(** One element of the message body of the time series service. *)
Record Series : Type := mkSeries {
  s_name : string;
  s_datapoints : list (Z * option Q);
  s_units : string;
  s_details : string
}.

(** What [uaa_util.getToken] does: it resolves with a token or rejects. *)
Inductive UaaResult : Type :=
| UaaGranted (access_token : string)
| UaaRejected.

(** The two callbacks handed to [setTimeout]. *)
Inductive Callback : Type :=
| AssetRetry
| TimeSeriesRetry.

(** Outgoing I/O, in the order the program issues it.  [SetTimeout cb ms] is
    [setTimeout(cb, ms)]; [HttpPost] and [WsConnect] carry the bearer token
    of their Authorization header. *)
Inductive Effect : Type :=
| UaaRequest
| SetTimeout (cb : Callback) (ms : Z)
| HttpPost (bearer : string) (body : list AssetMessage)
| WsConnect (bearer : string)
| WsSend (body : list Series)
| WsClose.

(** [Math.round]: to the nearest integer, halves upwards. *)
Definition Math_round (x : Q) : Z := Qfloor (x + (1 # 2)).

(** ** Simulated time in binary64 *)

(** The time of the simulation and its millisecond stamp as the program
    computes them, in IEEE doubles. *)
Module Double.
Import PrimFloat FloatOps SpecFloat.
Local Open Scope float_scope.
#[local] Set Warnings "-inexact-float".

(** [DT: 0.1], the double nearest to one tenth. *)
Definition DT : float := 0.1.

(** [time: 0.0] of the initial state. *)
Definition time0 : float := 0.

(** [time: state.time + constants.DT], once per tick. *)
Fixpoint timeAfter (n : nat) (time : float) : float :=
  match n with
  | O => time
  | S k => timeAfter k (time + DT)
  end.

(** [Math.round] of a double: the integer nearest to its exact value, halves
    upwards; [None] for NaN and the infinities.  A finite double is
    [m * 2^e] with a sign. *)
Definition Math_round (x : float) : option Z :=
  match Prim2SF x with
  | S754_zero _ => Some 0%Z
  | S754_finite negative m e =>
      let x2 := if negative then (- (2 * Zpos m))%Z else (2 * Zpos m)%Z in
      Some match e with
           | Z0 => (x2 / 2)%Z
           | Zpos p => (x2 / 2 * 2 ^ Zpos p)%Z
           | Zneg p => ((x2 + 2 ^ Zpos p) / 2 ^ (Zpos p + 1))%Z
           end
  | _ => None
  end.

(** [Math.round(node.data.time * 1000)] *)
Definition timestamp (time : float) : option Z := Math_round (time * 1000).

(** Whether the stamps of the times of [n] further ticks, from a time whose
    stamp is to be [ms], go up by 100 with each tick, the time growing with
    each tick. *)
Fixpoint stampsUpTo (n : nat) (time : float) (ms : Z) : bool :=
  match timestamp time with
  | Some z => (z =? ms)%Z
  | None => false
  end
  && match n with
     | O => true
     | S k => ltb time (time + DT) && stampsUpTo k (time + DT) (ms + 100)%Z
     end.

End Double.

(** ** src/common/helper.js *)

Module Helper.

(** [getPredixToken]: the value its promise resolves to for each outcome of
    the request to the authorisation server.  The [catch] turns a rejection
    into the string 'no_token'. *)
Definition getPredixToken (reply : UaaResult) : string :=
  match reply with
  | UaaGranted access_token => access_token
  | UaaRejected => "no_token"
  end.

(** [getId].  [draws] are the results of the successive calls of
    [generateId()], which reads the clock and [Math.random]; the environment
    fixes them.  A draw already in [usedIds] makes the function call itself
    again.  When no draw is left that is not in use, the recursion ends in
    an exception (the stack is exhausted); the innermost [catch] returns
    'no_id', every enclosing call returns what its inner call returned, and
    [usedIds] is as it was.  The result is the id, the draws that remain and
    the new [usedIds]. *)
Fixpoint getId (draws : list string) (usedIds : gset string)
  : string * list string * gset string :=
  match draws with
  | [] => ("no_id", [], usedIds)
  | id :: rest =>
      if decide (id ∈ usedIds) then getId rest usedIds
      else (id, rest, usedIds ∪ {[ id ]})
  end.

(** [setItemsInProgress]: [_.forEach] over the queue, pushing every node and
    leaving the loop when the length reaches the limit exactly.  The queue
    itself is only read. *)
Fixpoint setItemsInProgress {D : Type} (queue itemsInProgress : list (Node D))
  : list (Node D) :=
  match queue with
  | [] => itemsInProgress
  | node :: rest =>
      let itemsInProgress := itemsInProgress ++ [node] in
      if Nat.eqb (length itemsInProgress) constants.MAX_NODES_TO_QUEUE_PER_SEND
      then itemsInProgress
      else setItemsInProgress rest itemsInProgress
  end.

(** [_.remove(queue, { key: k })]: drops every element whose key is [k]. *)
Definition remove_key {D : Type} (k : string) (queue : list (Node D))
  : list (Node D) :=
  filter (fun n => key n ≠ k) queue.

(** [removeProcessedItemsFromQueue]: one [_.remove] per item in progress. *)
Definition removeProcessedItemsFromQueue {D : Type}
    (queue itemsInProgress : list (Node D)) : list (Node D) :=
  fold_left (fun q item => remove_key (key item) q) itemsInProgress queue.

End Helper.

(** ** src/services/asset_service.js *)

Module AssetService.

(** The value of a property of [totSent]: a number of sends, or the NaN that
    [++] makes of a value that is no number. *)
Inductive Counter : Type :=
| Count (n : Z)
| NaN.

Record t : Type := mk {
  queue : list (Node AssetData);
  isOperationInProgress : bool;
  itemsInProgress : list (Node AssetData);
  totSent : gmap string Counter;
  token : string
}.

Definition set_queue (v : list (Node AssetData)) (s : t) : t :=
  mk v (isOperationInProgress s) (itemsInProgress s) (totSent s) (token s).
Definition set_isOperationInProgress (v : bool) (s : t) : t :=
  mk (queue s) v (itemsInProgress s) (totSent s) (token s).
Definition set_itemsInProgress (v : list (Node AssetData)) (s : t) : t :=
  mk (queue s) (isOperationInProgress s) v (totSent s) (token s).
Definition set_totSent (v : gmap string Counter) (s : t) : t :=
  mk (queue s) (isOperationInProgress s) (itemsInProgress s) v (token s).
Definition set_token (v : string) (s : t) : t :=
  mk (queue s) (isOperationInProgress s) (itemsInProgress s) (totSent s) v.

(** The constructor.  [itemsInProgress] is not assigned by it; the empty
    list stands for the unassigned variable. *)
Definition new (tok : string) : t :=
  {| queue := []; isOperationInProgress := false; itemsInProgress := [];
     totSent := ∅; token := tok |}.

Definition buildBody (s : t) : list AssetMessage :=
  map (fun node =>
         let timestamp := Math_round (a_time (data node) * 1000) in
         {| m_uri := "/locomotive/" +:+ a_key (data node) +:+ "."
                     +:+ pretty timestamp;
            m_locomotiveId := constants.LOCOMOTIVE_ID;
            m_timestamp := timestamp;
            m_name := a_key (data node);
            m_val := a_val (data node);
            m_msg := a_msg (data node) |})
      (itemsInProgress s).

(** [processAssetData]: the drain.  The result is the new module state and
    the I/O issued. *)
Definition processAssetData (s : t) : t * list Effect :=
  if isOperationInProgress s then (s, [])
  else
    let s := set_isOperationInProgress true s in
    let s := set_itemsInProgress [] s in
    let s := set_itemsInProgress
               (Helper.setItemsInProgress (queue s) (itemsInProgress s)) s in
    if Nat.eqb (length (itemsInProgress s)) 0
    then (set_isOperationInProgress false s, [])
    else (s, [HttpPost (token s) (buildBody s)]).

(** [if (_.isUndefined(totSent[k])) totSent[k] = 0]: the value is undefined
    when [k] is neither an own property nor an inherited member. *)
Definition initialise (k : string) (totSent : gmap string Counter)
  : gmap string Counter :=
  match totSent !! k with
  | Some _ => totSent
  | None => if inherited k then totSent else <[ k := Count 0 ]> totSent
  end.

(** [++totSent[k]].  An own number is incremented and NaN stays NaN.  A
    name without own property reads as undefined or as an inherited member,
    a function or an object; the numeric value of each is NaN, and the
    assignment makes NaN an own property, except for '__proto__', whose
    setter ignores a number. *)
Definition increment (k : string) (totSent : gmap string Counter)
  : gmap string Counter :=
  match totSent !! k with
  | Some (Count n) => <[ k := Count (n + 1) ]> totSent
  | Some NaN => <[ k := NaN ]> totSent
  | None => if String.eqb k "__proto__" then totSent else <[ k := NaN ]> totSent
  end.

(** The counting loop of [handlePostResponse], over the nodes in
    progress. *)
Definition countSent (items : list (Node AssetData))
    (totSent : gmap string Counter) : gmap string Counter :=
  fold_left (fun m node =>
               let k := a_key (data node) in
               increment k (initialise k m))
            items totSent.

(** [handlePostResponse]; [ok] is false when [err || !res.ok]. *)
Definition handlePostResponse (ok : bool) (s : t) : t * list Effect :=
  if negb ok then
    let s := set_isOperationInProgress false s in
    (s, [SetTimeout AssetRetry
           (constants.WAIT_SECONDS_BETWEEN_FAILED_REQUESTS * 1000)%Z])
  else
    let s := set_totSent (countSent (itemsInProgress s) (totSent s)) s in
    let s := set_queue
               (Helper.removeProcessedItemsFromQueue (queue s) (itemsInProgress s))
               s in
    let s := set_isOperationInProgress false s in
    if negb (Nat.eqb (length (queue s)) 0) then processAssetData s
    else (s, []).

(** The timer callback up to its [await]: the flag is cleared and the token
    request goes out. *)
Definition retryTimer (s : t) : t * list Effect :=
  (set_isOperationInProgress false s, [UaaRequest]).

(** The timer callback after its [await]. *)
Definition retryResume (reply : UaaResult) (s : t) : t * list Effect :=
  processAssetData (set_token (Helper.getPredixToken reply) s).

(** [sendDataToPredix] once [Helper.getId()] has returned [id]. *)
Definition enqueue (id : string) (d : AssetData) (s : t) : t * list Effect :=
  processAssetData (set_queue (queue s ++ [mkNode id d]) s).

Definition isFinished (s : t) : bool :=
  Nat.eqb (length (queue s)) 0 && negb (isOperationInProgress s).

End AssetService.

(** ** src/services/time_series_service.js *)

Module TimeSeriesService.

(** The module variable [ws].  A socket that has been created is either
    still connecting, in which case the body built by the drain that created
    it waits for the 'open' event, or open. *)
Inductive Socket : Type :=
| WsUndefined
| WsConnecting (pending : list Series)
| WsOpen.

Record t : Type := mk {
  queue : list (Node State);
  isOperationInProgress : bool;
  ws : Socket;
  itemsInProgress : list (Node State);
  totSent : Z;
  token : string
}.

Definition set_queue (v : list (Node State)) (s : t) : t :=
  mk v (isOperationInProgress s) (ws s) (itemsInProgress s) (totSent s) (token s).
Definition set_isOperationInProgress (v : bool) (s : t) : t :=
  mk (queue s) v (ws s) (itemsInProgress s) (totSent s) (token s).
Definition set_ws (v : Socket) (s : t) : t :=
  mk (queue s) (isOperationInProgress s) v (itemsInProgress s) (totSent s) (token s).
Definition set_itemsInProgress (v : list (Node State)) (s : t) : t :=
  mk (queue s) (isOperationInProgress s) (ws s) v (totSent s) (token s).
Definition set_totSent (v : Z) (s : t) : t :=
  mk (queue s) (isOperationInProgress s) (ws s) (itemsInProgress s) v (token s).
Definition set_token (v : string) (s : t) : t :=
  mk (queue s) (isOperationInProgress s) (ws s) (itemsInProgress s) (totSent s) v.

Definition new (tok : string) : t :=
  {| queue := []; isOperationInProgress := false; ws := WsUndefined;
     itemsInProgress := []; totSent := 0; token := tok |}.

(** [tags]: name, units, details. *)
Definition tags : list (string * string * string) :=
  [ ("distance", "meters", "distance_travelled_by_the_locomotive");
    ("fuelMassBurning", "kg",
     "fuel_mass_currently_ignited_and_burning_inside_the_fire_chamber");
    ("fuelMassInTender", "kg", "fuel_mass_currently_in_tender");
    ("fuelMassInFireChamber", "kg",
     "fuel_mass_currently_inside_the_fire_chamber_burning_and_non-burning");
    ("pressure", "bar", "current_boiler_pressure_of_locomotive");
    ("speed", "meters_per_second", "current_speed_of_the_locomotive");
    ("time", "seconds", "time_that_has_passed_since_locomotive_began_traveling") ].

(** [node.data[name]]; [None] is [undefined]. *)
Definition property (name : string) (d : State) : option Q :=
  if String.eqb name "distance" then Some (distance d)
  else if String.eqb name "fuelMassBurning" then Some (fuelMassBurning d)
  else if String.eqb name "fuelMassInTender" then Some (fuelMassInTender d)
  else if String.eqb name "fuelMassInFireChamber" then Some (fuelMassInFireChamber d)
  else if String.eqb name "locomotiveOwnMass" then Some (locomotiveOwnMass d)
  else if String.eqb name "pressure" then Some (pressure d)
  else if String.eqb name "speed" then Some (speed d)
  else if String.eqb name "time" then Some (time d)
  else None.

Definition datapointsOf (name : string) (items : list (Node State))
  : list (Z * option Q) :=
  map (fun node => (Math_round (time (data node) * 1000)%Q,
                    property name (data node))) items.

(** One round of the loop over [tags]: the element of [body] with the tag's
    name is looked up, created and pushed when absent, and receives one data
    point per node in progress. *)
Definition addTag (items : list (Node State)) (body : list Series)
    (tag : string * string * string) : list Series :=
  let '(name, units, details) := tag in
  match list_find (fun e => s_name e = name) body with
  | Some (i, e) =>
      <[ i := mkSeries (s_name e) (s_datapoints e ++ datapointsOf name items)
                       (s_units e) (s_details e) ]> body
  | None => body ++ [mkSeries name (datapointsOf name items) units details]
  end.

Definition buildBody (s : t) : list Series :=
  fold_left (addTag (itemsInProgress s)) tags [].

(** [processTimeSeriesData]: the drain.  With no socket, [createWebSocket]
    opens one with the current token and the function waits for its 'open'
    event before it sends.  [ws.send] on a socket that is not open yet
    throws; the [catch] only logs. *)
Definition processTimeSeriesData (s : t) : t * list Effect :=
  if isOperationInProgress s then (s, [])
  else
    let s := set_isOperationInProgress true s in
    let s := set_itemsInProgress [] s in
    let s := set_itemsInProgress
               (Helper.setItemsInProgress (queue s) (itemsInProgress s)) s in
    if Nat.eqb (length (itemsInProgress s)) 0
    then (set_isOperationInProgress false s, [])
    else
      let body := buildBody s in
      match ws s with
      | WsUndefined => (set_ws (WsConnecting body) s, [WsConnect (token s)])
      | WsConnecting _ => (s, [])
      | WsOpen => (s, [WsSend body])
      end.

(** 'open': the promise of [createWebSocket] resolves and the waiting drain
    sends its message. *)
Definition onopen (s : t) : t * list Effect :=
  match ws s with
  | WsConnecting body => (set_ws WsOpen s, [WsSend body])
  | _ => (s, [])
  end.

(** [ws.onmessage]: the acknowledgement. *)
Definition onmessage (s : t) : t * list Effect :=
  let s := set_totSent (totSent s + Z.of_nat (length (itemsInProgress s)))%Z s in
  let s := set_queue
             (Helper.removeProcessedItemsFromQueue (queue s) (itemsInProgress s))
             s in
  let s := set_isOperationInProgress false s in
  if negb (Nat.eqb (length (queue s)) 0) then processTimeSeriesData s
  else (set_ws WsUndefined s, [WsClose]).

(** [ws.onerror] *)
Definition onerror (s : t) : t * list Effect :=
  (set_ws WsUndefined s,
   [SetTimeout TimeSeriesRetry
      (constants.WAIT_SECONDS_BETWEEN_FAILED_REQUESTS * 1000)%Z]).

(** The timer callback up to its [await], and after it. *)
Definition retryTimer (s : t) : t * list Effect :=
  (set_isOperationInProgress false s, [UaaRequest]).

Definition retryResume (reply : UaaResult) (s : t) : t * list Effect :=
  processTimeSeriesData (set_token (Helper.getPredixToken reply) s).

(** [sendDataToPredix] once [Helper.getId()] has returned [id]. *)
Definition enqueue (id : string) (d : State) (s : t) : t * list Effect :=
  processTimeSeriesData (set_queue (queue s ++ [mkNode id d]) s).

Definition isFinished (s : t) : bool :=
  Nat.eqb (length (queue s)) 0 && negb (isOperationInProgress s).

End TimeSeriesService.

(** ** The process: both services, the state of [Helper] and the outbox *)

Record Services : Type := mkServices {
  timeSeriesService : TimeSeriesService.t;
  assetService : AssetService.t;
  usedIds : gset string;
  idSource : list string;
  outbox : list Effect
}.

Definition withTimeSeries (k : Services) (r : TimeSeriesService.t * list Effect)
  : Services :=
  mkServices (fst r) (assetService k) (usedIds k) (idSource k)
             (outbox k ++ snd r).

Definition withAsset (k : Services) (r : AssetService.t * list Effect)
  : Services :=
  mkServices (timeSeriesService k) (fst r) (usedIds k) (idSource k)
             (outbox k ++ snd r).

Definition emit (e : list Effect) (k : Services) : Services :=
  mkServices (timeSeriesService k) (assetService k) (usedIds k) (idSource k)
             (outbox k ++ e).

(** [Helper.getId()] against the module state of [Helper]. *)
Definition nextId (k : Services) : string * Services :=
  let '(id, rest, used) := Helper.getId (idSource k) (usedIds k) in
  (id, mkServices (timeSeriesService k) (assetService k) used rest (outbox k)).

(** [timeSeriesService.sendDataToPredix(data)].  The result is what the
    sampling gate expects of a send function; this one always returns. *)
Definition timeSeries_sendDataToPredix (d : State) (k : Services)
  : option Services :=
  let '(id, k) := nextId k in
  Some (withTimeSeries k (TimeSeriesService.enqueue id d (timeSeriesService k))).

(** [assetService.sendDataToPredix(data)] *)
Definition asset_sendDataToPredix (d : AssetData) (k : Services)
  : option Services :=
  let '(id, k) := nextId k in
  Some (withAsset k (AssetService.enqueue id d (assetService k))).

(** ** The simulator: [model], [runSimulation] *)

(** An entry of [model.history]. *)
Record HistoryEntry : Type := mkHistoryEntry {
  prevTimeSent : Q;
  numSends : Z
}.

Module model.
Local Open Scope Q_scope.

(** Whether [model.history[key]] is an inherited member of the object: it is
    then not undefined, and its [numSends] is. *)
Definition inheritedMember (key : string) (history : gmap string HistoryEntry)
  : bool :=
  match history !! key with
  | Some _ => false
  | None => inherited key
  end.

(** [sendDataToPredix(key, data, sendData, ...)].  [now] is [state.time] of
    the module variable [state]; [sendData] acts on the sink only.  The body
    runs synchronously inside [Promise.try].  For an inherited member
    [numSends] is undefined, [undefined < MAX_NUM_SENDS_PER_KEY] is false,
    and the call does nothing. *)
Definition sendDataToPredix {D S : Type} (key : string) (data : D)
    (sendData : D -> S -> option S) (now : Q)
    (history : gmap string HistoryEntry) (sink : S)
  : option (gmap string HistoryEntry * S) :=
  if inheritedMember key history then Some (history, sink) else
  let numSends := match history !! key with
                  | None => 0%Z
                  | Some h => numSends h
                  end in
  let timeDiff := match history !! key with
                  | None => -1
                  | Some h => now - prevTimeSent h
                  end in
  if (numSends <? constants.MAX_NUM_SENDS_PER_KEY)%Z
     && (Qeq_bool timeDiff (-1)
         || Qle_bool constants.SEND_INTERVAL (timeDiff + constants.EPS))
  then
    sink ← sendData data sink;
    match history !! key with
    | None =>
        Some (<[ key := {| prevTimeSent := now; numSends := 1 |} ]> history, sink)
    | Some (mkHistoryEntry _ sent) =>
        Some (<[ key := {| prevTimeSent := now; numSends := (sent + 1)%Z |} ]> history,
              sink)
    end
  else Some (history, sink).

End model.

Record World : Type := mkWorld {
  state : State;
  history : gmap string HistoryEntry;
  numIterations : Z;
  services : Services
}.

Definition set_services (k : Services) (w : World) : World :=
  mkWorld (state w) (history w) (numIterations w) k.

(** [model.toTimeSeries(state)] *)
Definition toTimeSeries (st : State) (w : World) : option World :=
  '(h, k) ← model.sendDataToPredix "timeSeries" st timeSeries_sendDataToPredix
              (time (state w)) (history w) (services w);
  Some (mkWorld (state w) h (numIterations w) k).

(** [model.toAsset(key, val, msg)]; the record takes its time from the
    module variable [state]. *)
Definition toAsset (key : string) (val : Q) (msg : string) (w : World)
  : option World :=
  '(h, k) ← model.sendDataToPredix key
              (mkAssetData key val (time (state w)) msg) asset_sendDataToPredix
              (time (state w)) (history w) (services w);
  Some (mkWorld (state w) h (numIterations w) k).

(** [model.onStateChange] *)
Definition onStateChange : list (State -> World -> option World) :=
  [ (fun st => toTimeSeries st);
    (fun st w =>
       if Qltb constants.MAX_ALLOWED_PRESSURE (pressure st)
       then toAsset "pressure" (pressure st) "Maximum pressure has been exceeded!" w
       else Some w);
    (fun st w =>
       if Qltb constants.MAX_ALLOWED_SPEED (speed st)
       then toAsset "speed" (speed st) "Maximum speed has been exceeded!" w
       else Some w);
    (fun st w =>
       if Qltb (fuelMassInTender st) constants.MIN_ALLOWED_FUEL_MASS_IN_TENDER
       then toAsset "fuelMassInTender" (fuelMassInTender st)
                    "Fuel mass in tender is too low!" w
       else Some w) ].

(** [model.onStateChange.forEach(func => promises.push(func(state)))] *)
Definition notifyAll (fs : list (State -> World -> option World)) (w : World)
  : option World :=
  foldl (fun acc f => w' ← acc; f (state w') w') (Some w) fs.

(** One call of [runSimulation].  [reply] is the outcome of the token
    request, which is made in the first call only; nothing else can run
    while that call waits for it, because no service exists yet. *)
Definition runSimulation (reply : UaaResult) (w : World) : option World :=
  let w :=
    if (numIterations w =? 0)%Z then
      let token := Helper.getPredixToken reply in
      set_services
        (mkServices (TimeSeriesService.new token) (AssetService.new token)
                    (usedIds (services w)) (idSource (services w))
                    (outbox (services w) ++ [UaaRequest]))
        w
    else w in
  if (constants.NUM_ITERATIONS <=? numIterations w)%Z then Some w
  else
    let w := mkWorld (state w) (history w) (numIterations w + 1)%Z (services w) in
    let w := mkWorld (advance (state w)) (history w) (numIterations w) (services w) in
    notifyAll onStateChange w.

(** The process at start-up: nothing has been sent and no service has been
    constructed; the service fields are placeholders until the first call of
    [runSimulation] assigns them.  [ids] is what [generateId] will draw. *)
Definition initialWorld (ids : list string) : World :=
  {| state := initialState;
     history := ∅;
     numIterations := 0;
     services := mkServices (TimeSeriesService.new "") (AssetService.new "")
                            ∅ ids [] |}.

(** ** Events: the callbacks the runtime can invoke *)

Inductive Event : Type :=
| EvRunSimulation (reply : UaaResult)
| EvPostResponse (ok : bool)
| EvAssetRetryTimer
| EvAssetRetryResume (reply : UaaResult)
| EvWsOpen
| EvWsMessage
| EvWsError
| EvTimeSeriesRetryTimer
| EvTimeSeriesRetryResume (reply : UaaResult).

Definition onServices (f : Services -> Services) (w : World) : option World :=
  Some (set_services (f (services w)) w).

(** Socket events reach the handlers of the current socket; a socket that
    does not exist, or is not in the state the event needs, raises none. *)
Definition step (e : Event) (w : World) : option World :=
  match e with
  | EvRunSimulation reply => runSimulation reply w
  | EvPostResponse ok =>
      onServices (fun k => withAsset k
        (AssetService.handlePostResponse ok (assetService k))) w
  | EvAssetRetryTimer =>
      onServices (fun k => withAsset k
        (AssetService.retryTimer (assetService k))) w
  | EvAssetRetryResume reply =>
      onServices (fun k => withAsset k
        (AssetService.retryResume reply (assetService k))) w
  | EvWsOpen =>
      onServices (fun k => withTimeSeries k
        (TimeSeriesService.onopen (timeSeriesService k))) w
  | EvWsMessage =>
      onServices (fun k =>
        match TimeSeriesService.ws (timeSeriesService k) with
        | TimeSeriesService.WsOpen =>
            withTimeSeries k (TimeSeriesService.onmessage (timeSeriesService k))
        | _ => k
        end) w
  | EvWsError =>
      onServices (fun k =>
        match TimeSeriesService.ws (timeSeriesService k) with
        | TimeSeriesService.WsUndefined => k
        | _ => withTimeSeries k (TimeSeriesService.onerror (timeSeriesService k))
        end) w
  | EvTimeSeriesRetryTimer =>
      onServices (fun k => withTimeSeries k
        (TimeSeriesService.retryTimer (timeSeriesService k))) w
  | EvTimeSeriesRetryResume reply =>
      onServices (fun k => withTimeSeries k
        (TimeSeriesService.retryResume reply (timeSeriesService k))) w
  end.

Fixpoint run (es : list Event) (w : World) : option World :=
  match es with
  | [] => Some w
  | e :: rest => w' ← step e w; run rest w'
  end.

(** The start of [runVerification] in src/verification/index.js: the token
    is requested, and the utility returns at once, before any query to a
    sink, when it is 'no_token'.  [Some token]: it goes on to its menu. *)
Definition runVerification_start (reply : UaaResult) : option string :=
  let token := Helper.getPredixToken reply in
  if String.eqb token "no_token" then None else Some token.

(** ** Notions of the specification *)

(** The burning mass after the first statement of the Fire Chamber stage, in
    the words of the specification. *)
Definition burningAfterCatchUp (s : State) : Q :=
  if Qltb (fuelMassBurning s) (fuelMassInFireChamber s)
  then Qmin (fuelMassInFireChamber s) (fuelMassBurning s + constants.FUEL_ADD_AMT)%Q
  else fuelMassBurning s.

(** The fuel invariant of the pipeline: the burning mass lies between zero
    and the fire-chamber mass, and the pressure is not negative. *)
Definition fuelInvariant (s : State) : Prop :=
  (0 <= fuelMassBurning s)%Q
  /\ (fuelMassBurning s <= fuelMassInFireChamber s)%Q
  /\ (0 <= pressure s)%Q.

(** The sampling policy in the words of the specification: the sends so far
    of a key, the eligibility of a key at a time, and the history after a
    send. *)
Definition sendsSoFar (key : string) (history : gmap string HistoryEntry) : Z :=
  match history !! key with
  | None => 0
  | Some h => numSends h
  end.

Definition eligible (key : string) (now : Q)
    (history : gmap string HistoryEntry) : Prop :=
  (sendsSoFar key history < constants.MAX_NUM_SENDS_PER_KEY)%Z
  /\ (history !! key = None
      \/ exists h, history !! key = Some h
                   /\ (constants.SEND_INTERVAL
                       <= now - prevTimeSent h + constants.EPS)%Q).

Definition recordSend (key : string) (now : Q)
    (history : gmap string HistoryEntry) : gmap string HistoryEntry :=
  <[ key := {| prevTimeSent := now;
               numSends := (sendsSoFar key history + 1)%Z |} ]> history.

(** A sink that only records what it is sent, oldest first. *)
Definition record {D : Type} (d : D) (sent : list D) : option (list D) :=
  Some (sent ++ [d]).

(** Any number of samples, each for a key at a time, offered to the gate in
    turn with a sink that records the key of what it is sent. *)
Fixpoint sampleAll (calls : list (string * Q))
    (history : gmap string HistoryEntry) (sent : list string)
  : option (gmap string HistoryEntry * list string) :=
  match calls with
  | [] => Some (history, sent)
  | (key, now) :: rest =>
      '(history, sent) ← model.sendDataToPredix key key record now history sent;
      sampleAll rest history sent
  end.

(** The history invariant of a run: every entry counts between one send and
    the maximum, and no entry was sent later than the current time. *)
Definition historyInvariant (now : Q) (history : gmap string HistoryEntry)
  : Prop :=
  forall key h, history !! key = Some h ->
    (1 <= numSends h <= constants.MAX_NUM_SENDS_PER_KEY)%Z
    /\ (prevTimeSent h <= now)%Q.

(** The keys of the nodes waiting in the two queues. *)
Definition queueKeys (k : Services) : list string :=
  keys (AssetService.queue (assetService k))
  ++ keys (TimeSeriesService.queue (timeSeriesService k)).

(** The keys that a step takes out of the queues: waiting before, gone
    after. *)
Definition removedKeys (before after : Services) : list string :=
  filter (fun x => x ∉ queueKeys after) (queueKeys before).

(** The keys taken out of the queues along a run, in order. *)
Fixpoint removedAlong (es : list Event) (w : World) : list string :=
  match es with
  | [] => []
  | e :: rest =>
      match step e w with
      | Some w' => removedKeys (services w) (services w') ++ removedAlong rest w'
      | None => []
      end
  end.

(** The queue invariant: the waiting keys are pairwise distinct and have all
    been handed out by [getId]. *)
Definition distinctKeys (k : Services) : Prop :=
  NoDup (queueKeys k) /\ Forall (fun x => x ∈ usedIds k) (queueKeys k).

(** The batch invariant: neither service has more nodes in progress than
    one send may carry. *)
Definition batchBounded (k : Services) : Prop :=
  length (AssetService.itemsInProgress (assetService k))
    <= constants.MAX_NODES_TO_QUEUE_PER_SEND
  /\ length (TimeSeriesService.itemsInProgress (timeSeriesService k))
     <= constants.MAX_NODES_TO_QUEUE_PER_SEND.

(** How the services may change: ids are never forgotten, the draws are
    only consumed, and the batch invariant is kept.  While draws remain, so
    that [getId] has not fallen back on 'no_id', a key that waits afterwards
    either waited before or had not been handed out, and the queue invariant
    is kept. *)
Definition evolves (k k' : Services) : Prop :=
  usedIds k ⊆ usedIds k'
  /\ idSource k' `suffix_of` idSource k
  /\ (idSource k' <> [] ->
      forall x, x ∈ queueKeys k' -> x ∈ queueKeys k \/ x ∉ usedIds k)
  /\ (idSource k' <> [] -> distinctKeys k -> distinctKeys k')
  /\ (batchBounded k -> batchBounded k').

(** What a step of the simulator may do to the world. *)
Definition advances (w w' : World) : Prop :=
  (time (state w) <= time (state w'))%Q
  /\ (historyInvariant (time (state w)) (history w) ->
      historyInvariant (time (state w')) (history w'))
  /\ evolves (services w) (services w').

(** ** Further notions of the code *)

(** The locals [mass] and [a] of the Movement stage, [a] as it is before the
    dead-zone rule. *)
Definition totalMass (s : State) : Q :=
  (locomotiveOwnMass s + fuelMassInTender s + fuelMassInFireChamber s)%Q.

Definition rawAcceleration (s : State) : Q :=
  ((constants.X1 * pressure s - constants.X2 * speed s) / totalMass s)%Q.

(** The bounds that the pipeline keeps from the initial state on. *)
Definition pipelineBounds (s : State) : Prop :=
  (locomotiveOwnMass s == constants.LOCOMOTIVE_OWN_MASS
   /\ - constants.FUEL_ADD_AMT <= fuelMassInTender s
   /\ fuelMassInTender s + fuelMassInFireChamber s
      <= constants.INITIAL_FUEL_MASS_IN_TENDER
   /\ 0 <= fuelMassBurning s
   /\ fuelMassBurning s <= fuelMassInFireChamber s
   /\ fuelMassInFireChamber s
      <= constants.MAX_FUEL_MASS_IN_FIRE_CHAMBER + constants.FUEL_ADD_AMT
         - constants.FUEL_BURN_AMT
   /\ 0 <= pressure s
   /\ pressure s
      <= constants.PRESSURE_MULTIPLIER
         * (constants.MAX_FUEL_MASS_IN_FIRE_CHAMBER + constants.FUEL_ADD_AMT)
   /\ 0 <= speed s
   /\ constants.X2 * speed s
      <= constants.X1
         * (constants.PRESSURE_MULTIPLIER
            * (constants.MAX_FUEL_MASS_IN_FIRE_CHAMBER + constants.FUEL_ADD_AMT))
   /\ 0 <= distance s)%Q.

(** The number of calls of [runSimulation] among the events of a run. *)
Fixpoint ticks (es : list Event) : nat :=
  match es with
  | [] => 0
  | EvRunSimulation _ :: rest => S (ticks rest)
  | _ :: rest => ticks rest
  end.

(** The keys under which the simulator samples. *)
Definition sampledKeys : list string :=
  ["timeSeries"; "pressure"; "speed"; "fuelMassInTender"].

(** The condition under which [onStateChange] raises the alert [key] with
    value [val] for a state. *)
Definition alertRaised (st : State) (key : string) (val : Q) : Prop :=
  (key = "pressure" /\ val = pressure st
   /\ (constants.MAX_ALLOWED_PRESSURE < val)%Q)
  \/ (key = "speed" /\ val = speed st
      /\ (constants.MAX_ALLOWED_SPEED < val)%Q)
  \/ (key = "fuelMassInTender" /\ val = fuelMassInTender st
      /\ (val < constants.MIN_ALLOWED_FUEL_MASS_IN_TENDER)%Q).

(** An alert record, or a sample, that stems from one of the first [n] ticks
    of the simulation. *)
Definition genuineAlert (n : nat) (d : AssetData) : Prop :=
  exists j, 1 <= j <= n
            /\ alertRaised (iterate j initialState) (a_key d) (a_val d)
            /\ a_time d = time (iterate j initialState).

Definition genuineSample (n : nat) (d : State) : Prop :=
  exists j, 1 <= j <= n /\ d = iterate j initialState.

(** What holds of the world of the simulator throughout a run. *)
Definition trajectory (w : World) : Prop :=
  (0 <= numIterations w)%Z
  /\ state w = iterate (Z.to_nat (numIterations w)) initialState
  /\ Forall (fun node => genuineAlert (Z.to_nat (numIterations w)) (data node))
            (AssetService.queue (assetService (services w)))
  /\ Forall (fun node => genuineSample (Z.to_nat (numIterations w)) (data node))
            (TimeSeriesService.queue (timeSeriesService (services w)))
  /\ (forall key, is_Some (history w !! key) -> key ∈ sampledKeys).

(** How the history entry of a key may differ after a step that ends at
    simulated time [now]: it is kept, or it records one more send, made at
    [now] and at least the send interval, up to EPS, after the previous
    one. *)
Definition entryFollows (now : Q) (before after : option HistoryEntry)
  : Prop :=
  match before, after with
  | None, None => True
  | None, Some new => numSends new = 1%Z /\ prevTimeSent new = now
  | Some old, Some new =>
      new = old
      \/ (numSends new = (numSends old + 1)%Z
          /\ prevTimeSent new = now
          /\ (constants.SEND_INTERVAL
              <= prevTimeSent new - prevTimeSent old + constants.EPS)%Q)
  | Some _, None => False
  end.

(** What the counting loop does to the property [k] of [totSent] for one
    node with that key, as a function of the value of the property. *)
Definition counted (k : string) (old : option AssetService.Counter)
  : option AssetService.Counter :=
  match old with
  | Some (AssetService.Count n) => Some (AssetService.Count (n + 1))
  | Some AssetService.NaN => Some AssetService.NaN
  | None =>
      if inherited k
      then if String.eqb k "__proto__" then None else Some AssetService.NaN
      else Some (AssetService.Count 1)
  end.

(** The message that [buildBody] of the asset service makes of a node. *)
Definition assetMessage (node : Node AssetData) : AssetMessage :=
  let timestamp := Math_round (a_time (data node) * 1000) in
  {| m_uri := "/locomotive/" +:+ a_key (data node) +:+ "." +:+ pretty timestamp;
     m_locomotiveId := constants.LOCOMOTIVE_ID;
     m_timestamp := timestamp;
     m_name := a_key (data node);
     m_val := a_val (data node);
     m_msg := a_msg (data node) |}.

(** The asset service with a sink that accepts every request: each POST in
    flight is answered with success, at most [fuel] times. *)
Fixpoint acknowledgeAll (fuel : nat) (s : AssetService.t)
  : AssetService.t * list Effect :=
  match fuel with
  | O => (s, [])
  | S fuel =>
      if AssetService.isOperationInProgress s then
        let r := AssetService.handlePostResponse true s in
        let r' := acknowledgeAll fuel (fst r) in
        (fst r', snd r ++ snd r')
      else (s, [])
  end.

(** The messages of the POST requests among some effects, in order. *)
Definition posted (io : list Effect) : list AssetMessage :=
  concat (map (fun e => match e with HttpPost _ body => body | _ => [] end) io).

(** * Properties *)

(** ** Numbers *)

Lemma Qltb_lt (x y : Q) : Qltb x y = true <-> (x < y)%Q.
Proof.
  unfold Qltb. rewrite negb_true_iff, <- not_true_iff_false, Qle_bool_iff.
  split; [apply Qnot_le_lt | apply Qlt_not_le].
Qed.

Lemma Qltb_ge (x y : Q) : Qltb x y = false <-> (y <= x)%Q.
Proof.
  unfold Qltb. rewrite negb_false_iff. apply Qle_bool_iff.
Qed.

(** Case analysis on a comparison of the source, leaving the order fact. *)
Ltac case_Qltb x y :=
  let E := fresh "E" in
  destruct (Qltb x y) eqn:E;
  [ apply Qltb_lt in E | apply Qltb_ge in E ].

Ltac case_Qmin x y :=
  let H := fresh "Hmin" in
  destruct (Q.min_spec x y) as [[? H] | [? H]].

Ltac case_Qmax x y :=
  let H := fresh "Hmax" in
  destruct (Q.max_spec x y) as [[? H] | [? H]].

(** ** The transfer functions *)

Section Pipeline.
Local Open Scope Q_scope.
Import processes.

Lemma Fireman_blocked (s : State) :
  fuelMassInTender s < 0
  \/ constants.MAX_FUEL_MASS_IN_FIRE_CHAMBER < fuelMassInFireChamber s ->
  Fireman s = s.
Proof.
  intros H. unfold Fireman.
  case_Qltb (fuelMassInTender s) 0; [reflexivity |].
  case_Qltb constants.MAX_FUEL_MASS_IN_FIRE_CHAMBER (fuelMassInFireChamber s);
    [reflexivity |].
  exfalso. unfold_constants. destruct H; lra.
Qed.

Lemma Fireman_open (s : State) :
  0 <= fuelMassInTender s ->
  fuelMassInFireChamber s <= constants.MAX_FUEL_MASS_IN_FIRE_CHAMBER ->
  Fireman s =
    {| distance := distance s;
       fuelMassBurning := fuelMassBurning s;
       fuelMassInTender := fuelMassInTender s - constants.FUEL_ADD_AMT;
       fuelMassInFireChamber := fuelMassInFireChamber s + constants.FUEL_ADD_AMT;
       locomotiveOwnMass := locomotiveOwnMass s;
       pressure := pressure s;
       speed := speed s;
       time := time s |}.
Proof.
  intros Ht Hc. unfold Fireman.
  case_Qltb (fuelMassInTender s) 0; [lra |].
  case_Qltb constants.MAX_FUEL_MASS_IN_FIRE_CHAMBER (fuelMassInFireChamber s);
    [unfold_constants; lra |].
  reflexivity.
Qed.

(** C5.  The Fireman stage returns its argument when the tender mass is
    negative or the fire-chamber mass exceeds the maximum; otherwise it
    returns the state with FUEL_ADD_AMT moved from the tender to the fire
    chamber and every other field as it was.  The stage is a total function
    on states: there is no error result. *)
Theorem Fireman_transfer (s : State) :
  (fuelMassInTender s < 0
   \/ constants.MAX_FUEL_MASS_IN_FIRE_CHAMBER < fuelMassInFireChamber s ->
   Fireman s = s)
  /\ (~ (fuelMassInTender s < 0
         \/ constants.MAX_FUEL_MASS_IN_FIRE_CHAMBER < fuelMassInFireChamber s) ->
      Fireman s =
        {| distance := distance s;
           fuelMassBurning := fuelMassBurning s;
           fuelMassInTender := fuelMassInTender s - constants.FUEL_ADD_AMT;
           fuelMassInFireChamber := fuelMassInFireChamber s + constants.FUEL_ADD_AMT;
           locomotiveOwnMass := locomotiveOwnMass s;
           pressure := pressure s;
           speed := speed s;
           time := time s |}).
Proof.
  split.
  - apply Fireman_blocked.
  - intros H. apply Fireman_open.
    + apply Qnot_lt_le. intros ?. apply H. now left.
    + apply Qnot_lt_le. intros ?. apply H. now right.
Qed.

Lemma Fireman_transfer_witness :
  Fireman (set_fuelMassInTender (-1) initialState)
  = set_fuelMassInTender (-1) initialState
  /\ Fireman initialState
     = {| distance := 0;
          fuelMassBurning := 0;
          fuelMassInTender :=
            constants.INITIAL_FUEL_MASS_IN_TENDER - constants.FUEL_ADD_AMT;
          fuelMassInFireChamber := 0 + constants.FUEL_ADD_AMT;
          locomotiveOwnMass := constants.LOCOMOTIVE_OWN_MASS;
          pressure := 0;
          speed := 0;
          time := 0 |}.
Proof.
  split.
  - apply (Fireman_transfer (set_fuelMassInTender (-1) initialState)).
    left. reflexivity.
  - apply (Fireman_transfer initialState).
    intros [H | H]; vm_compute in H; discriminate H.
Defined.

(** The Fire Chamber stage, field by field. *)
Lemma FireChamber_fields (s : State) :
  pressure (FireChamber s)
    == constants.PRESSURE_MULTIPLIER * burningAfterCatchUp s
  /\ fuelMassBurning (FireChamber s)
       == Qmax 0 (burningAfterCatchUp s - constants.FUEL_BURN_AMT)
  /\ fuelMassInFireChamber (FireChamber s)
       == Qmax 0 (fuelMassInFireChamber s - constants.FUEL_BURN_AMT)
  /\ distance (FireChamber s) = distance s
  /\ fuelMassInTender (FireChamber s) = fuelMassInTender s
  /\ locomotiveOwnMass (FireChamber s) = locomotiveOwnMass s
  /\ speed (FireChamber s) = speed s
  /\ time (FireChamber s) = time s.
Proof.
  unfold FireChamber, burningAfterCatchUp.
  case_Qltb (fuelMassBurning s) (fuelMassInFireChamber s); cbn.
  - assert (Hc : Qmin (fuelMassInFireChamber s)
                      (constants.FUEL_ADD_AMT + fuelMassBurning s)
                 == Qmin (fuelMassInFireChamber s)
                         (fuelMassBurning s + constants.FUEL_ADD_AMT)).
    { apply Q.min_compat; [reflexivity | apply Qplus_comm]. }
    repeat split; try reflexivity.
    + now rewrite Hc.
    + apply Q.max_compat; [reflexivity |]. now rewrite Hc.
  - repeat split; reflexivity.
Qed.

(** C6.  The Fire Chamber stage computes, in this order: the burning mass
    catches up with the fire-chamber mass by at most FUEL_ADD_AMT; the
    pressure is PRESSURE_MULTIPLIER times that burning mass; the burning
    mass and the fire-chamber mass each lose FUEL_BURN_AMT, not going below
    zero.  The pressure of the result is therefore the multiplier times the
    burning mass before the burn-off, and whenever that mass is positive it
    is strictly more than the multiplier times the burning mass of the
    result. *)
Theorem FireChamber_order (s : State) :
  pressure (FireChamber s)
    == constants.PRESSURE_MULTIPLIER * burningAfterCatchUp s
  /\ fuelMassBurning (FireChamber s)
       == Qmax 0 (burningAfterCatchUp s - constants.FUEL_BURN_AMT)
  /\ fuelMassInFireChamber (FireChamber s)
       == Qmax 0 (fuelMassInFireChamber s - constants.FUEL_BURN_AMT)
  /\ (0 < burningAfterCatchUp s ->
      constants.PRESSURE_MULTIPLIER * fuelMassBurning (FireChamber s)
      < pressure (FireChamber s)).
Proof.
  destruct (FireChamber_fields s) as (Hp & Hb & Hc & _).
  repeat split; try assumption.
  intros Hpos. rewrite Hp, Hb.
  case_Qmax 0 (burningAfterCatchUp s - constants.FUEL_BURN_AMT);
    rewrite Hmax; unfold_constants; lra.
Qed.

Lemma FireChamber_order_witness :
  constants.PRESSURE_MULTIPLIER
    * fuelMassBurning (FireChamber (Fireman initialState))
  < pressure (FireChamber (Fireman initialState)).
Proof.
  apply (FireChamber_order (Fireman initialState)). reflexivity.
Defined.

(** *** The fuel invariant *)

Lemma burningAfterCatchUp_bounds (s : State) :
  0 <= fuelMassBurning s ->
  fuelMassBurning s <= fuelMassInFireChamber s ->
  0 <= burningAfterCatchUp s
  /\ burningAfterCatchUp s <= fuelMassInFireChamber s.
Proof.
  intros H0 Hle. unfold burningAfterCatchUp.
  case_Qltb (fuelMassBurning s) (fuelMassInFireChamber s); [| lra].
  case_Qmin (fuelMassInFireChamber s)
            (fuelMassBurning s + constants.FUEL_ADD_AMT);
    rewrite Hmin; unfold_constants; lra.
Qed.

Lemma fuelInvariant_init : fuelInvariant initialState.
Proof. unfold fuelInvariant; cbn. lra. Qed.

Lemma Fireman_fuelInvariant (s : State) :
  fuelInvariant s -> fuelInvariant (Fireman s).
Proof.
  intros (H0 & Hle & Hp). unfold Fireman.
  destruct (_ || _); [repeat split; assumption |].
  unfold fuelInvariant; cbn. unfold_constants. lra.
Qed.

Lemma FireChamber_fuelInvariant (s : State) :
  fuelInvariant s -> fuelInvariant (FireChamber s).
Proof.
  intros (H0 & Hle & _).
  destruct (FireChamber_fields s) as (Hp & Hb & Hc & _).
  destruct (burningAfterCatchUp_bounds s H0 Hle) as [Hb0 Hbc].
  unfold fuelInvariant. rewrite Hp, Hb, Hc.
  case_Qmax 0 (burningAfterCatchUp s - constants.FUEL_BURN_AMT);
    case_Qmax 0 (fuelMassInFireChamber s - constants.FUEL_BURN_AMT);
    rewrite Hmax, Hmax0; unfold_constants; lra.
Qed.

Lemma Movement_fuelInvariant (s : State) :
  fuelInvariant s -> fuelInvariant (Movement s).
Proof. intros H. exact H. Qed.

Lemma stage_fuelInvariant (f : State -> State) :
  In f processes.all -> forall s, fuelInvariant s -> fuelInvariant (f s).
Proof.
  intros [<- | [<- | [<- | []]]].
  - apply Fireman_fuelInvariant.
  - apply FireChamber_fuelInvariant.
  - apply Movement_fuelInvariant.
Qed.

Lemma advance_fuelInvariant (s : State) :
  fuelInvariant s -> fuelInvariant (advance s).
Proof.
  intros H. unfold advance. cbn.
  apply Movement_fuelInvariant, FireChamber_fuelInvariant,
    Fireman_fuelInvariant, H.
Qed.

(** C9.  In every state reachable from the initial state the burning mass is
    between zero and the fire-chamber mass, and the pressure is not
    negative; each of the three stages preserves this.  The pressure is not
    negative because the Fire Chamber stage sets it to PRESSURE_MULTIPLIER
    times the burning mass it has just caught up, which is not negative. *)
Theorem fuelInvariant_reachable :
  (forall s, reachable s -> fuelInvariant s)
  /\ (forall f, In f processes.all ->
       forall s, fuelInvariant s -> fuelInvariant (f s))
  /\ (forall s, fuelInvariant s ->
       pressure (FireChamber s)
         == constants.PRESSURE_MULTIPLIER * burningAfterCatchUp s
       /\ 0 <= burningAfterCatchUp s).
Proof.
  split; [| split].
  - induction 1 as [| s _ IH].
    + apply fuelInvariant_init.
    + apply advance_fuelInvariant, IH.
  - apply stage_fuelInvariant.
  - intros s (H0 & Hle & _). split.
    + apply FireChamber_fields.
    + apply (burningAfterCatchUp_bounds s H0 Hle).
Qed.

Lemma fuelInvariant_reachable_witness :
  fuelInvariant (advance initialState)
  /\ fuelInvariant (FireChamber (Fireman initialState))
  /\ 0 <= burningAfterCatchUp (Fireman initialState).
Proof.
  destruct fuelInvariant_reachable as (Hreach & Hstage & Hpress).
  split; [| split].
  - apply Hreach. apply reachable_step, reachable_init.
  - apply Hstage.
    + right; left; reflexivity.
    + vm_compute. repeat split; discriminate.
  - apply Hpress. vm_compute. repeat split; discriminate.
Defined.

(** *** The tender *)

Lemma advance_fuelMassInTender (s : State) :
  fuelMassInTender (advance s) = fuelMassInTender (Fireman s).
Proof.
  change (advance s) with (Movement (FireChamber (Fireman s))).
  destruct (FireChamber_fields (Fireman s)) as (_ & _ & _ & _ & Ht & _).
  exact Ht.
Qed.

Lemma Fireman_tender_lower_bound (s : State) :
  - constants.FUEL_ADD_AMT <= fuelMassInTender s ->
  - constants.FUEL_ADD_AMT <= fuelMassInTender (Fireman s).
Proof.
  intros H. unfold Fireman.
  case_Qltb (fuelMassInTender s) 0; [exact H |].
  destruct (Qltb _ _); [exact H |].
  cbn. unfold_constants. lra.
Qed.

Lemma Fireman_tender_negative (s : State) :
  fuelMassInTender s < 0 -> Fireman s = s.
Proof. intros H. apply Fireman_blocked. now left. Qed.

Lemma iterate_tender_negative (n : nat) (s : State) :
  fuelMassInTender s < 0 ->
  fuelMassInTender (iterate n s) = fuelMassInTender s.
Proof.
  revert s. induction n as [| n IH]; intros s H; [reflexivity |].
  cbn [iterate].
  assert (E : fuelMassInTender (advance s) = fuelMassInTender s).
  { rewrite advance_fuelMassInTender. now rewrite Fireman_tender_negative. }
  rewrite IH; [exact E | now rewrite E].
Qed.

(** C10.  In every state reachable from the initial state the tender mass is
    at least minus FUEL_ADD_AMT.  The Fireman stage still transfers when the
    tender mass is at least zero but less than one quantum (and the fire
    chamber is not over its maximum), which makes the tender mass negative;
    once it is negative no later tick changes it. *)
Theorem tender_lower_bound :
  (forall s, reachable s -> - constants.FUEL_ADD_AMT <= fuelMassInTender s)
  /\ (forall s,
        0 <= fuelMassInTender s -> fuelMassInTender s < constants.FUEL_ADD_AMT ->
        fuelMassInFireChamber s <= constants.MAX_FUEL_MASS_IN_FIRE_CHAMBER ->
        fuelMassInTender (advance s) < 0)
  /\ (forall s n,
        fuelMassInTender s < 0 ->
        fuelMassInTender (iterate n s) = fuelMassInTender s).
Proof.
  split; [| split].
  - induction 1 as [| s _ IH].
    + cbn. unfold_constants. lra.
    + rewrite advance_fuelMassInTender. now apply Fireman_tender_lower_bound.
  - intros s H0 H1 Hc. rewrite advance_fuelMassInTender.
    rewrite (Fireman_open s H0 Hc). cbn. lra.
  - intros s n. apply iterate_tender_negative.
Qed.

Lemma tender_lower_bound_witness :
  - constants.FUEL_ADD_AMT <= fuelMassInTender (advance initialState)
  /\ fuelMassInTender (advance (set_fuelMassInTender (1 # 2) initialState)) < 0
  /\ fuelMassInTender (iterate 3 (set_fuelMassInTender (- (1 # 2)) initialState))
     = fuelMassInTender (set_fuelMassInTender (- (1 # 2)) initialState).
Proof.
  destruct tender_lower_bound as (Hreach & Hneg & Hstay).
  split; [| split].
  - apply Hreach. apply reachable_step, reachable_init.
  - apply Hneg; vm_compute; (reflexivity || discriminate).
  - apply Hstay. reflexivity.
Defined.

End Pipeline.

(** ** Helper *)

Section HelperFacts.
Context {D : Type}.
Implicit Types (queue items : list (Node D)).

(** The two outcomes of [getId]: the first draw that is not in use, or
    'no_id' when every draw is in use. *)
Lemma getId_outcome (draws : list string) (used : gset string) :
  (exists skipped id rest,
      draws = skipped ++ id :: rest
      /\ Forall (fun x => x ∈ used) skipped
      /\ (id ∉ used)
      /\ Helper.getId draws used = (id, rest, used ∪ {[ id ]}))
  \/ (Forall (fun x => x ∈ used) draws
      /\ Helper.getId draws used = ("no_id", [], used)).
Proof.
  induction draws as [| d draws IH]; cbn.
  - right. split; [constructor | reflexivity].
  - destruct (decide (d ∈ used)) as [Hin | Hout].
    + destruct IH as [(skipped & id & rest & -> & Hall & Hf & ->) | [Hall ->]].
      * left. exists (d :: skipped), id, rest.
        repeat split; [now constructor | exact Hf].
      * right. split; [now constructor | reflexivity].
    + left. exists [], d, draws. repeat split; [constructor | exact Hout].
Qed.

(** What every call of [getId] keeps, and what a call has done that leaves
    draws behind. *)
Lemma getId_result (draws rest : list string) (used used' : gset string)
    (id : string) :
  Helper.getId draws used = (id, rest, used') ->
  used ⊆ used'
  /\ rest `suffix_of` draws
  /\ (rest <> [] -> (id ∉ used) /\ used' = used ∪ {[ id ]}).
Proof.
  destruct (getId_outcome draws used)
    as [(skipped & i & r & -> & Hall & Hf & ->) | [Hall ->]];
    intros [= <- <- <-].
  - split; [apply union_subseteq_l | split].
    + exists (skipped ++ [i]). now rewrite <- app_assoc.
    + intros _. split; [exact Hf | reflexivity].
  - split; [reflexivity | split; [apply suffix_nil |]].
    intros Hne. now destruct Hne.
Qed.

(** The loop of [setItemsInProgress] below the limit appends a prefix of the
    queue. *)
Lemma setItemsInProgress_take queue items :
  length items < constants.MAX_NODES_TO_QUEUE_PER_SEND ->
  Helper.setItemsInProgress queue items
  = items ++ take (constants.MAX_NODES_TO_QUEUE_PER_SEND - length items) queue.
Proof.
  revert items.
  induction queue as [| node queue IH]; intros items Hlt;
    cbn [Helper.setItemsInProgress].
  - rewrite take_nil. now rewrite app_nil_r.
  - rewrite length_app; cbn [length].
    destruct (Nat.eqb_spec (length items + 1)
                           constants.MAX_NODES_TO_QUEUE_PER_SEND) as [E | N].
    + replace (constants.MAX_NODES_TO_QUEUE_PER_SEND - length items) with 1
        by lia.
      reflexivity.
    + rewrite IH by (rewrite length_app; cbn [length]; lia).
      rewrite length_app; cbn [length].
      destruct (constants.MAX_NODES_TO_QUEUE_PER_SEND - length items)
        as [| m] eqn:Em; [lia |].
      replace (constants.MAX_NODES_TO_QUEUE_PER_SEND - (length items + 1))
        with m by lia.
      cbn [firstn]. now rewrite <- app_assoc.
Qed.

Lemma setItemsInProgress_empty queue :
  Helper.setItemsInProgress queue []
  = take constants.MAX_NODES_TO_QUEUE_PER_SEND queue.
Proof.
  rewrite setItemsInProgress_take
    by (cbn; unfold constants.MAX_NODES_TO_QUEUE_PER_SEND; lia).
  reflexivity.
Qed.

Lemma remove_key_filter (k : string) queue :
  Helper.remove_key k queue = filter (fun n => key n ≠ k) queue.
Proof. reflexivity. Qed.

(** The successive [_.remove] calls amount to one filter. *)
Lemma removeProcessedItemsFromQueue_filter queue items :
  Helper.removeProcessedItemsFromQueue queue items
  = filter (fun n => key n ∉ keys items) queue.
Proof.
  unfold Helper.removeProcessedItemsFromQueue.
  revert queue. induction items as [| item items IH]; intros queue; cbn.
  - symmetry. clear. induction queue as [| n queue IH]; [reflexivity |].
    rewrite filter_cons_True by apply not_elem_of_nil. now rewrite IH.
  - rewrite IH. unfold Helper.remove_key. rewrite list_filter_filter.
    apply list_filter_iff. intros n. rewrite not_elem_of_cons. tauto.
Qed.




End HelperFacts.

(** ** The drain *)

Lemma take_min_length {A : Type} (n : nat) (l : list A) :
  take (Nat.min (length l) n) l = take n l.
Proof.
  destruct (Nat.le_gt_cases (length l) n) as [Hle | Hgt].
  - rewrite Nat.min_l by exact Hle. now rewrite !take_ge by lia.
  - now rewrite Nat.min_r by lia.
Qed.

Lemma processAssetData_queue (s : AssetService.t) :
  AssetService.queue (fst (AssetService.processAssetData s))
  = AssetService.queue s.
Proof.
  unfold AssetService.processAssetData.
  destruct (AssetService.isOperationInProgress s); [reflexivity |].
  cbn. now destruct (Nat.eqb _ 0).
Qed.

Lemma processAssetData_idle (s : AssetService.t) :
  AssetService.isOperationInProgress s = false ->
  AssetService.itemsInProgress (fst (AssetService.processAssetData s))
  = take constants.MAX_NODES_TO_QUEUE_PER_SEND (AssetService.queue s).
Proof.
  intros H. unfold AssetService.processAssetData. rewrite H. cbn.
  rewrite setItemsInProgress_empty. now destruct (Nat.eqb _ 0).
Qed.

Lemma processTimeSeriesData_queue (s : TimeSeriesService.t) :
  TimeSeriesService.queue (fst (TimeSeriesService.processTimeSeriesData s))
  = TimeSeriesService.queue s.
Proof.
  unfold TimeSeriesService.processTimeSeriesData.
  destruct (TimeSeriesService.isOperationInProgress s); [reflexivity |].
  cbn. destruct (Nat.eqb _ 0); [reflexivity |].
  now destruct (TimeSeriesService.ws s).
Qed.

Lemma processTimeSeriesData_idle (s : TimeSeriesService.t) :
  TimeSeriesService.isOperationInProgress s = false ->
  TimeSeriesService.itemsInProgress
    (fst (TimeSeriesService.processTimeSeriesData s))
  = take constants.MAX_NODES_TO_QUEUE_PER_SEND (TimeSeriesService.queue s).
Proof.
  intros H. unfold TimeSeriesService.processTimeSeriesData. rewrite H. cbn.
  rewrite setItemsInProgress_empty.
  destruct (Nat.eqb _ 0); [reflexivity |].
  now destruct (TimeSeriesService.ws s).
Qed.

(** ** Failure of a transmission *)

Lemma processAssetData_token (s : AssetService.t) :
  AssetService.token (fst (AssetService.processAssetData s))
  = AssetService.token s.
Proof.
  unfold AssetService.processAssetData.
  destruct (AssetService.isOperationInProgress s); [reflexivity |].
  cbn. now destruct (Nat.eqb _ 0).
Qed.

Lemma processTimeSeriesData_token (s : TimeSeriesService.t) :
  TimeSeriesService.token (fst (TimeSeriesService.processTimeSeriesData s))
  = TimeSeriesService.token s.
Proof.
  unfold TimeSeriesService.processTimeSeriesData.
  destruct (TimeSeriesService.isOperationInProgress s); [reflexivity |].
  cbn. destruct (Nat.eqb _ 0); [reflexivity |].
  now destruct (TimeSeriesService.ws s).
Qed.

(** C2.  A failed POST of the asset service, and a socket error of the time
    series service, leave the queue as it is and hand the retry callback to
    [setTimeout] with WAIT_SECONDS_BETWEEN_FAILED_REQUESTS * 1000 ms and
    nothing else; the asset service clears its flag at once, the time series
    service drops its socket.  The callback clears the flag and requests a
    new token, the queue still untouched; when the token request has
    settled, its result becomes the token and the drain runs again on the
    head of the same queue. *)
Theorem failure_keeps_queue_and_schedules_retry :
  (forall s : AssetService.t,
      let r := AssetService.handlePostResponse false s in
      AssetService.queue (fst r) = AssetService.queue s
      /\ AssetService.isOperationInProgress (fst r) = false
      /\ snd r = [SetTimeout AssetRetry
                    (constants.WAIT_SECONDS_BETWEEN_FAILED_REQUESTS * 1000)%Z])
  /\ (forall s : AssetService.t,
        let r := AssetService.retryTimer s in
        AssetService.queue (fst r) = AssetService.queue s
        /\ AssetService.isOperationInProgress (fst r) = false
        /\ snd r = [UaaRequest])
  /\ (forall (reply : UaaResult) (s : AssetService.t),
        let r := AssetService.retryResume reply
                   (fst (AssetService.retryTimer s)) in
        AssetService.queue (fst r) = AssetService.queue s
        /\ AssetService.token (fst r) = Helper.getPredixToken reply
        /\ AssetService.itemsInProgress (fst r)
           = take constants.MAX_NODES_TO_QUEUE_PER_SEND (AssetService.queue s))
  /\ (forall s : TimeSeriesService.t,
        let r := TimeSeriesService.onerror s in
        TimeSeriesService.queue (fst r) = TimeSeriesService.queue s
        /\ TimeSeriesService.ws (fst r) = TimeSeriesService.WsUndefined
        /\ snd r = [SetTimeout TimeSeriesRetry
                      (constants.WAIT_SECONDS_BETWEEN_FAILED_REQUESTS * 1000)%Z])
  /\ (forall s : TimeSeriesService.t,
        let r := TimeSeriesService.retryTimer s in
        TimeSeriesService.queue (fst r) = TimeSeriesService.queue s
        /\ TimeSeriesService.isOperationInProgress (fst r) = false
        /\ snd r = [UaaRequest])
  /\ (forall (reply : UaaResult) (s : TimeSeriesService.t),
        let r := TimeSeriesService.retryResume reply
                   (fst (TimeSeriesService.retryTimer s)) in
        TimeSeriesService.queue (fst r) = TimeSeriesService.queue s
        /\ TimeSeriesService.token (fst r) = Helper.getPredixToken reply
        /\ TimeSeriesService.itemsInProgress (fst r)
           = take constants.MAX_NODES_TO_QUEUE_PER_SEND
                  (TimeSeriesService.queue s)).
Proof.
  repeat match goal with |- _ /\ _ => split end;
    try (intros s; cbn; repeat split; reflexivity).
  - intros reply s r. subst r. unfold AssetService.retryResume.
    rewrite processAssetData_queue, processAssetData_token.
    rewrite processAssetData_idle by reflexivity. repeat split.
  - intros reply s r. subst r. unfold TimeSeriesService.retryResume.
    rewrite processTimeSeriesData_queue, processTimeSeriesData_token.
    rewrite processTimeSeriesData_idle by reflexivity. repeat split.
Qed.

(** ** The sampling policy *)

Section Sampling.
Context {D S : Type}.
Implicit Types (history : gmap string HistoryEntry) (sink : S).

(** The test of [sendDataToPredix], as the source computes it. *)
Lemma sendDataToPredix_test (key : string) (data : D)
    (sendData : D -> S -> option S) (now : Q) history sink :
  model.sendDataToPredix key data sendData now history sink
  = if negb (model.inheritedMember key history)
       && ((sendsSoFar key history <? constants.MAX_NUM_SENDS_PER_KEY)%Z
           && match history !! key with
              | None => true
              | Some h =>
                  Qeq_bool (now - prevTimeSent h) (-1)
                  || Qle_bool constants.SEND_INTERVAL
                              (now - prevTimeSent h + constants.EPS)
              end)
    then sink' ← sendData data sink;
         Some (recordSend key now history, sink')
    else Some (history, sink).
Proof.
  unfold model.sendDataToPredix, recordSend, sendsSoFar.
  destruct (model.inheritedMember key history); cbn [negb andb];
    [reflexivity |].
  destruct (history !! key) as [[prev sent] |]; cbn [numSends prevTimeSent].
  - destruct (_ && _); [| reflexivity].
    now destruct (sendData data sink).
  - change (Qeq_bool (-1) (-1)) with true. cbn [orb].
    destruct (_ && _); [| reflexivity].
    now destruct (sendData data sink).
Qed.

(** A key that reads as an inherited member is never forwarded. *)
Lemma sendDataToPredix_inherited (key : string) (data : D)
    (sendData : D -> S -> option S) (now : Q) history sink :
  model.inheritedMember key history = true ->
  model.sendDataToPredix key data sendData now history sink
  = Some (history, sink).
Proof. intros H. rewrite sendDataToPredix_test, H. reflexivity. Qed.

(** For a key that reads as an entry or as undefined, and away from the
    sentinel, the test is the eligibility of the key. *)
Lemma sendDataToPredix_eligible (key : string) (data : D)
    (sendData : D -> S -> option S) (now : Q) history sink :
  model.inheritedMember key history = false ->
  (forall h, history !! key = Some h -> ~ (now - prevTimeSent h == -1)%Q) ->
  (eligible key now history ->
   model.sendDataToPredix key data sendData now history sink
   = sink' ← sendData data sink; Some (recordSend key now history, sink'))
  /\ (~ eligible key now history ->
      model.sendDataToPredix key data sendData now history sink
      = Some (history, sink)).
Proof.
  intros Hown Hsentinel. rewrite sendDataToPredix_test, Hown.
  cbn [negb andb]. unfold eligible.
  destruct (Z.ltb_spec (sendsSoFar key history) constants.MAX_NUM_SENDS_PER_KEY)
    as [Hlt | Hge]; cbn [andb].
  - destruct (history !! key) as [h |] eqn:Hh.
    + destruct (Qeq_bool (now - prevTimeSent h) (-1)) eqn:Eeq.
      { apply Qeq_bool_iff in Eeq. now destruct (Hsentinel h eq_refl). }
      cbn [orb].
      destruct (Qle_bool constants.SEND_INTERVAL
                         (now - prevTimeSent h + constants.EPS)) eqn:Ele.
      * split; [reflexivity |]. intros Hn. exfalso. apply Hn.
        split; [exact Hlt |]. right. exists h. split; [reflexivity |].
        now apply Qle_bool_iff.
      * split; [| reflexivity]. intros [_ [Hnone | (h' & [= <-] & Hle)]];
          [discriminate |].
        apply Qle_bool_iff in Hle. congruence.
    + split; [reflexivity |]. intros Hn. exfalso. apply Hn. now split; [| left].
  - split; [| reflexivity]. intros [Hlt _]. lia.
Qed.

End Sampling.

Lemma eligible_dec (key : string) (now : Q)
    (history : gmap string HistoryEntry) :
  eligible key now history \/ ~ eligible key now history.
Proof.
  unfold eligible.
  destruct (Z.lt_ge_cases (sendsSoFar key history)
                          constants.MAX_NUM_SENDS_PER_KEY) as [Hlt | Hge];
    [| right; intros [Hlt _]; lia].
  destruct (history !! key) as [h |]; [| left; split; [exact Hlt | now left]].
  destruct (Qlt_le_dec (now - prevTimeSent h + constants.EPS)
                       constants.SEND_INTERVAL) as [Hl | Hl].
  - right. intros [_ [Hnone | (h' & [= <-] & Hle)]]; [discriminate |].
    apply (Qlt_not_le _ _ Hl), Hle.
  - left. split; [exact Hlt |]. right. now exists h.
Qed.

(** The sentinel of the gate: a history whose last send of the key lay
    exactly one second after the current time would read as a first send;
    the key is not eligible, and the value would be forwarded all the same.
    No run has such a history, since its simulated time never decreases. *)
Lemma sendDataToPredix_sentinel :
  ~ eligible "speed" 0%Q
      {[ "speed" := {| prevTimeSent := 1%Q; numSends := 1 |} ]}
  /\ model.sendDataToPredix "speed" 28%Q record 0%Q
       {[ "speed" := {| prevTimeSent := 1%Q; numSends := 1 |} ]} []
     = Some (<[ "speed" := {| prevTimeSent := 0%Q; numSends := 2 |} ]>
               {[ "speed" := {| prevTimeSent := 1%Q; numSends := 1 |} ]},
             [28%Q]).
Proof.
  split.
  - intros [_ [Hnone | (h & Hh & Hle)]].
    + rewrite lookup_singleton_eq in Hnone. discriminate Hnone.
    + rewrite lookup_singleton_eq in Hh. injection Hh as <-.
      vm_compute in Hle. now apply Hle.
  - rewrite sendDataToPredix_test. unfold sendsSoFar, recordSend.
    unfold model.inheritedMember.
    rewrite lookup_singleton_eq. reflexivity.
Qed.

(** ** How the queues evolve *)

Lemma evolves_refl (k : Services) : evolves k k.
Proof.
  split; [reflexivity | split; [reflexivity | split; [| split]]].
  - intros _ x Hx. now left.
  - intros _ H. exact H.
  - intros H. exact H.
Qed.

Lemma evolves_trans (k1 k2 k3 : Services) :
  evolves k1 k2 -> evolves k2 k3 -> evolves k1 k3.
Proof.
  intros (Hu12 & Hs12 & Hq12 & Hd12 & Hb12) (Hu23 & Hs23 & Hq23 & Hd23 & Hb23).
  assert (Hne : idSource k3 <> [] -> idSource k2 <> []).
  { intros H3 H2. rewrite H2 in Hs23. now apply suffix_nil_inv in Hs23. }
  split; [| split; [| split; [| split]]].
  - now transitivity (usedIds k2).
  - now transitivity (idSource k2).
  - intros H3 x Hx. destruct (Hq23 H3 x Hx) as [H2 | H2].
    + exact (Hq12 (Hne H3) x H2).
    + right. intros Hin. apply H2, Hu12, Hin.
  - intros H3 H. apply (Hd23 H3), (Hd12 (Hne H3)), H.
  - intros H. apply Hb23, Hb12, H.
Qed.

(** A step that only drops waiting nodes. *)
Lemma evolves_shrink (k k' : Services) :
  usedIds k' = usedIds k ->
  idSource k' = idSource k ->
  queueKeys k' `sublist_of` queueKeys k ->
  (batchBounded k -> batchBounded k') ->
  evolves k k'.
Proof.
  intros Hu Hs Hsub Hb. split; [| split; [| split; [| split]]].
  - now rewrite Hu.
  - now rewrite Hs.
  - intros _ x Hx. left. exact (sublist_subseteq _ _ Hsub x Hx).
  - intros _ [Hnd Hall]. split.
    + exact (sublist_NoDup _ _ Hnd Hsub).
    + rewrite Forall_forall in Hall |- *.
      intros x Hx. rewrite Hu. apply Hall, (sublist_subseteq _ _ Hsub x Hx).
  - exact Hb.
Qed.

Lemma withAsset_evolves (k : Services) (r : AssetService.t * list Effect) :
  keys (AssetService.queue (fst r))
    `sublist_of` keys (AssetService.queue (assetService k)) ->
  (length (AssetService.itemsInProgress (assetService k))
     <= constants.MAX_NODES_TO_QUEUE_PER_SEND ->
   length (AssetService.itemsInProgress (fst r))
     <= constants.MAX_NODES_TO_QUEUE_PER_SEND) ->
  evolves k (withAsset k r).
Proof.
  intros Hsub Hlen. apply evolves_shrink; [reflexivity | reflexivity | |].
  - unfold queueKeys; cbn. now apply sublist_app.
  - intros [Ha Ht]. split; [exact (Hlen Ha) | exact Ht].
Qed.

Lemma withTimeSeries_evolves (k : Services)
    (r : TimeSeriesService.t * list Effect) :
  keys (TimeSeriesService.queue (fst r))
    `sublist_of` keys (TimeSeriesService.queue (timeSeriesService k)) ->
  (length (TimeSeriesService.itemsInProgress (timeSeriesService k))
     <= constants.MAX_NODES_TO_QUEUE_PER_SEND ->
   length (TimeSeriesService.itemsInProgress (fst r))
     <= constants.MAX_NODES_TO_QUEUE_PER_SEND) ->
  evolves k (withTimeSeries k r).
Proof.
  intros Hsub Hlen. apply evolves_shrink; [reflexivity | reflexivity | |].
  - unfold queueKeys; cbn. now apply sublist_app.
  - intros [Ha Ht]. split; [exact Ha | exact (Hlen Ht)].
Qed.

(** Every drain leaves a batch within the limit in progress. *)
Lemma processAssetData_bounded (s : AssetService.t) :
  length (AssetService.itemsInProgress s)
    <= constants.MAX_NODES_TO_QUEUE_PER_SEND ->
  length (AssetService.itemsInProgress (fst (AssetService.processAssetData s)))
    <= constants.MAX_NODES_TO_QUEUE_PER_SEND.
Proof.
  intros H. destruct (AssetService.isOperationInProgress s) eqn:E.
  - unfold AssetService.processAssetData. now rewrite E.
  - rewrite (processAssetData_idle s E), length_take. apply Nat.le_min_l.
Qed.

Lemma processTimeSeriesData_bounded (s : TimeSeriesService.t) :
  length (TimeSeriesService.itemsInProgress s)
    <= constants.MAX_NODES_TO_QUEUE_PER_SEND ->
  length (TimeSeriesService.itemsInProgress
            (fst (TimeSeriesService.processTimeSeriesData s)))
    <= constants.MAX_NODES_TO_QUEUE_PER_SEND.
Proof.
  intros H. destruct (TimeSeriesService.isOperationInProgress s) eqn:E.
  - unfold TimeSeriesService.processTimeSeriesData. now rewrite E.
  - rewrite (processTimeSeriesData_idle s E), length_take. apply Nat.le_min_l.
Qed.

Lemma removeProcessed_sublist {D : Type} (queue items : list (Node D)) :
  keys (Helper.removeProcessedItemsFromQueue queue items)
    `sublist_of` keys queue.
Proof.
  rewrite removeProcessedItemsFromQueue_filter.
  unfold keys. apply fmap_sublist, sublist_filter.
Qed.

Lemma handlePostResponse_evolves (ok : bool) (k : Services) :
  evolves k (withAsset k (AssetService.handlePostResponse ok (assetService k))).
Proof.
  apply withAsset_evolves; unfold AssetService.handlePostResponse;
    (destruct ok; cbn [negb]; [cbv zeta; destruct (negb _) |]).
  - rewrite processAssetData_queue. cbn. apply removeProcessed_sublist.
  - cbn. apply removeProcessed_sublist.
  - reflexivity.
  - intros H. now apply processAssetData_bounded.
  - intros H. exact H.
  - intros H. exact H.
Qed.

Lemma onmessage_evolves (k : Services) :
  evolves k (withTimeSeries k (TimeSeriesService.onmessage (timeSeriesService k))).
Proof.
  apply withTimeSeries_evolves; unfold TimeSeriesService.onmessage;
    cbv zeta; destruct (negb _).
  - rewrite processTimeSeriesData_queue. cbn. apply removeProcessed_sublist.
  - cbn. apply removeProcessed_sublist.
  - intros H. now apply processTimeSeriesData_bounded.
  - intros H. exact H.
Qed.

(** [getId] against the state of [Helper]: ids are never forgotten and the
    draws are only consumed; when draws remain, the id was not in use and is
    recorded. *)
Lemma nextId_result (k k' : Services) (id : string) :
  nextId k = (id, k') ->
  usedIds k ⊆ usedIds k'
  /\ idSource k' `suffix_of` idSource k
  /\ (idSource k' <> [] ->
      (id ∉ usedIds k) /\ usedIds k' = usedIds k ∪ {[ id ]})
  /\ timeSeriesService k' = timeSeriesService k
  /\ assetService k' = assetService k
  /\ outbox k' = outbox k.
Proof.
  unfold nextId.
  destruct (Helper.getId (idSource k) (usedIds k)) as [[i rest] used] eqn:E.
  intros [= <- <-]. cbn.
  destruct (getId_result _ _ _ _ _ E) as (Hu & Hs & Hf). auto 10.
Qed.

(** Appending one node, with a fresh key while draws remain. *)
Lemma evolves_enqueue (k k' : Services) (id : string) :
  usedIds k ⊆ usedIds k' ->
  idSource k' `suffix_of` idSource k ->
  (idSource k' <> [] ->
   (id ∉ usedIds k) /\ usedIds k' = usedIds k ∪ {[ id ]}) ->
  queueKeys k' ≡ₚ id :: queueKeys k ->
  (batchBounded k -> batchBounded k') ->
  evolves k k'.
Proof.
  intros Hsub Hs Hfresh Hperm Hb. split; [| split; [| split; [| split]]].
  - exact Hsub.
  - exact Hs.
  - intros Hne x Hx. destruct (Hfresh Hne) as [Hf _]. rewrite Hperm in Hx.
    apply elem_of_cons in Hx as [-> | Hx]; [now right | now left].
  - intros Hne [Hnd Hall]. destruct (Hfresh Hne) as [Hf Hu]. split.
    + rewrite Hperm. apply NoDup_cons. split; [| exact Hnd].
      intros Hin. rewrite Forall_forall in Hall. exact (Hf (Hall _ Hin)).
    + rewrite Hperm. constructor.
      * rewrite Hu. apply elem_of_union_r, elem_of_singleton. reflexivity.
      * eapply Forall_impl; [exact Hall |].
        intros x Hx. rewrite Hu. now apply elem_of_union_l.
  - exact Hb.
Qed.

Lemma asset_sendDataToPredix_Some (d : AssetData) (k k' : Services) :
  asset_sendDataToPredix d k = Some k' ->
  exists id,
    AssetService.queue (assetService k')
    = AssetService.queue (assetService k) ++ [mkNode id d]
    /\ timeSeriesService k' = timeSeriesService k
    /\ (batchBounded k -> batchBounded k')
    /\ usedIds k ⊆ usedIds k'
    /\ idSource k' `suffix_of` idSource k
    /\ (idSource k' <> [] ->
        (id ∉ usedIds k) /\ usedIds k' = usedIds k ∪ {[ id ]}).
Proof.
  unfold asset_sendDataToPredix.
  destruct (nextId k) as [id k1] eqn:E.
  intros [= <-].
  destruct (nextId_result _ _ _ E) as (Hu & Hs & Hf & Hts & Has & _).
  exists id. cbn. unfold AssetService.enqueue.
  rewrite processAssetData_queue. cbn. rewrite Has, Hts.
  split; [reflexivity | split; [reflexivity | split]];
    [| split; [exact Hu | split; [exact Hs | exact Hf]]].
  intros H. split.
  - apply processAssetData_bounded. cbn. rewrite ?Has. exact (proj1 H).
  - cbn. rewrite ?Hts. exact (proj2 H).
Qed.

Lemma timeSeries_sendDataToPredix_Some (d : State) (k k' : Services) :
  timeSeries_sendDataToPredix d k = Some k' ->
  exists id,
    TimeSeriesService.queue (timeSeriesService k')
    = TimeSeriesService.queue (timeSeriesService k) ++ [mkNode id d]
    /\ assetService k' = assetService k
    /\ (batchBounded k -> batchBounded k')
    /\ usedIds k ⊆ usedIds k'
    /\ idSource k' `suffix_of` idSource k
    /\ (idSource k' <> [] ->
        (id ∉ usedIds k) /\ usedIds k' = usedIds k ∪ {[ id ]}).
Proof.
  unfold timeSeries_sendDataToPredix.
  destruct (nextId k) as [id k1] eqn:E.
  intros [= <-].
  destruct (nextId_result _ _ _ E) as (Hu & Hs & Hf & Hts & Has & _).
  exists id. cbn. unfold TimeSeriesService.enqueue.
  rewrite processTimeSeriesData_queue. cbn. rewrite Has, Hts.
  split; [reflexivity | split; [reflexivity | split]];
    [| split; [exact Hu | split; [exact Hs | exact Hf]]].
  intros H. split.
  - cbn. rewrite ?Has. exact (proj1 H).
  - apply processTimeSeriesData_bounded. cbn. rewrite ?Hts. exact (proj2 H).
Qed.

Lemma asset_sendDataToPredix_evolves (d : AssetData) (k k' : Services) :
  asset_sendDataToPredix d k = Some k' -> evolves k k'.
Proof.
  intros H. destruct (asset_sendDataToPredix_Some _ _ _ H)
    as (id & Hq & Hts & Hb & Hu & Hs & Hf).
  apply (evolves_enqueue k k' id Hu Hs Hf); [| exact Hb].
  unfold queueKeys, keys. rewrite Hq, Hts, fmap_app. cbn.
  rewrite <- app_assoc. cbn. symmetry. apply Permutation_middle.
Qed.

Lemma timeSeries_sendDataToPredix_evolves (d : State) (k k' : Services) :
  timeSeries_sendDataToPredix d k = Some k' -> evolves k k'.
Proof.
  intros H. destruct (timeSeries_sendDataToPredix_Some _ _ _ H)
    as (id & Hq & Has & Hb & Hu & Hs & Hf).
  apply (evolves_enqueue k k' id Hu Hs Hf); [| exact Hb].
  unfold queueKeys, keys. rewrite Hq, Has, fmap_app. cbn.
  rewrite app_assoc. symmetry. rewrite <- Permutation_cons_append. reflexivity.
Qed.

(** ** How the world advances *)

Lemma advances_refl (w : World) : advances w w.
Proof.
  split; [apply Qle_refl | split]; [intros H; exact H | apply evolves_refl].
Qed.

Lemma advances_trans (w1 w2 w3 : World) :
  advances w1 w2 -> advances w2 w3 -> advances w1 w3.
Proof.
  intros (Ht12 & Hh12 & He12) (Ht23 & Hh23 & He23). split; [| split].
  - exact (Qle_trans _ _ _ Ht12 Ht23).
  - intros H. apply Hh23, Hh12, H.
  - exact (evolves_trans _ _ _ He12 He23).
Qed.

Lemma historyInvariant_later (now now' : Q)
    (history : gmap string HistoryEntry) :
  (now <= now')%Q -> historyInvariant now history ->
  historyInvariant now' history.
Proof.
  intros Hle Hinv key h Hh. destruct (Hinv key h Hh) as [Hn Hp].
  split; [exact Hn | exact (Qle_trans _ _ _ Hp Hle)].
Qed.

Lemma sendsSoFar_nonneg (key : string) (now : Q)
    (history : gmap string HistoryEntry) :
  historyInvariant now history ->
  (0 <= sendsSoFar key history <= constants.MAX_NUM_SENDS_PER_KEY)%Z.
Proof.
  intros Hinv. unfold sendsSoFar.
  destruct (history !! key) as [h |] eqn:Hh.
  - destruct (Hinv key h Hh) as [Hn _]. lia.
  - unfold constants.MAX_NUM_SENDS_PER_KEY. lia.
Qed.

Lemma recordSend_invariant (key : string) (now : Q)
    (history : gmap string HistoryEntry) :
  historyInvariant now history ->
  (sendsSoFar key history < constants.MAX_NUM_SENDS_PER_KEY)%Z ->
  historyInvariant now (recordSend key now history).
Proof.
  intros Hinv Hlt key' h Hh. unfold recordSend in Hh.
  destruct (decide (key = key')) as [<- | Hne].
  - rewrite lookup_insert_eq in Hh. injection Hh as <-. cbn.
    pose proof (sendsSoFar_nonneg key now history Hinv).
    split; [lia | apply Qle_refl].
  - rewrite lookup_insert_ne in Hh by exact Hne. exact (Hinv key' h Hh).
Qed.

Lemma sendDataToPredix_outcome {D S : Type} (key : string) (data : D)
    (sendData : D -> S -> option S) (now : Q)
    (history history' : gmap string HistoryEntry) (sink sink' : S) :
  model.sendDataToPredix key data sendData now history sink
  = Some (history', sink') ->
  (history' = history /\ sink' = sink)
  \/ (sendData data sink = Some sink'
      /\ history' = recordSend key now history
      /\ (sendsSoFar key history < constants.MAX_NUM_SENDS_PER_KEY)%Z).
Proof.
  rewrite sendDataToPredix_test.
  destruct (model.inheritedMember key history); cbn [negb andb];
    [intros [= <- <-]; now left |].
  destruct (Z.ltb_spec (sendsSoFar key history) constants.MAX_NUM_SENDS_PER_KEY)
    as [Hlt | Hge]; cbn [andb].
  - destruct (match history !! key with Some _ => _ | None => _ end).
    + destruct (sendData data sink) as [s1 |]; cbn; [| discriminate].
      intros [= <- <-]. right. auto.
    + intros [= <- <-]. now left.
  - intros [= <- <-]. now left.
Qed.

Lemma time_advance (s : State) :
  time (advance s) = (time s + constants.DT)%Q.
Proof.
  change (advance s) with (processes.Movement (processes.FireChamber (processes.Fireman s))).
  cbn [processes.Movement time set_time].
  destruct (FireChamber_fields (processes.Fireman s))
    as (_ & _ & _ & _ & _ & _ & _ & Ht).
  rewrite Ht. unfold processes.Fireman.
  now destruct (_ || _).
Qed.

Lemma toTimeSeries_advances (st : State) (w w' : World) :
  toTimeSeries st w = Some w' -> advances w w' /\ state w' = state w.
Proof.
  unfold toTimeSeries.
  destruct (model.sendDataToPredix _ _ _ _ _ _) as [[h k] |] eqn:E;
    [| discriminate].
  cbn. intros [= <-]. split; [| reflexivity].
  split; [apply Qle_refl | cbn].
  destruct (sendDataToPredix_outcome _ _ _ _ _ _ _ _ E)
    as [[-> ->] | (Hsend & -> & Hlt)].
  - split; [intros H; exact H | apply evolves_refl].
  - split.
    + intros H. now apply recordSend_invariant.
    + exact (timeSeries_sendDataToPredix_evolves _ _ _ Hsend).
Qed.

Lemma toAsset_advances (key : string) (val : Q) (msg : string) (w w' : World) :
  toAsset key val msg w = Some w' -> advances w w' /\ state w' = state w.
Proof.
  unfold toAsset.
  destruct (model.sendDataToPredix _ _ _ _ _ _) as [[h k] |] eqn:E;
    [| discriminate].
  cbn. intros [= <-]. split; [| reflexivity].
  split; [apply Qle_refl | cbn].
  destruct (sendDataToPredix_outcome _ _ _ _ _ _ _ _ E)
    as [[-> ->] | (Hsend & -> & Hlt)].
  - split; [intros H; exact H | apply evolves_refl].
  - split.
    + intros H. now apply recordSend_invariant.
    + exact (asset_sendDataToPredix_evolves _ _ _ Hsend).
Qed.

Lemma onStateChange_advances (f : State -> World -> option World) :
  In f onStateChange ->
  forall st w w', f st w = Some w' -> advances w w' /\ state w' = state w.
Proof.
  intros [<- | [<- | [<- | [<- | []]]]] st w w'.
  - apply toTimeSeries_advances.
  - destruct (Qltb _ _); [apply toAsset_advances |].
    intros [= <-]. split; [apply advances_refl | reflexivity].
  - destruct (Qltb _ _); [apply toAsset_advances |].
    intros [= <-]. split; [apply advances_refl | reflexivity].
  - destruct (Qltb _ _); [apply toAsset_advances |].
    intros [= <-]. split; [apply advances_refl | reflexivity].
Qed.

Lemma notifyAll_advances (fs : list (State -> World -> option World)) :
  (forall f, In f fs ->
     forall st w w', f st w = Some w' -> advances w w' /\ state w' = state w) ->
  forall w w', notifyAll fs w = Some w' -> advances w w'.
Proof.
  unfold notifyAll. intros Hfs w.
  assert (Hgen : forall acc w',
             foldl (fun acc f => w0 ← acc; f (state w0) w0) acc fs = Some w' ->
             exists w0, acc = Some w0 /\ advances w0 w').
  { induction fs as [| f fs IH]; intros acc w' H; cbn in H.
    - exists w'. split; [exact H | apply advances_refl].
    - destruct (IH (fun g Hg => Hfs g (or_intror Hg)) _ _ H) as (w1 & Hw1 & Ha).
      destruct acc as [w0 |]; [| discriminate]. cbn in Hw1.
      exists w0. split; [reflexivity |].
      destruct (Hfs f (or_introl eq_refl) _ _ _ Hw1) as [Ha0 _].
      exact (advances_trans _ _ _ Ha0 Ha). }
  intros w' H. destruct (Hgen _ _ H) as (w0 & [= <-] & Ha). exact Ha.
Qed.

Lemma runSimulation_advances (reply : UaaResult) (w w' : World) :
  runSimulation reply w = Some w' -> advances w w'.
Proof.
  unfold runSimulation.
  set (w0 := if (numIterations w =? 0)%Z then _ else w).
  assert (H0 : advances w w0).
  { subst w0. destruct (numIterations w =? 0)%Z; [| apply advances_refl].
    split; [apply Qle_refl | split]; [intros H; exact H |].
    apply evolves_shrink; [reflexivity | reflexivity | apply sublist_nil_l |].
    intros _. split; cbn; apply Nat.le_0_l. }
  destruct (constants.NUM_ITERATIONS <=? numIterations w0)%Z.
  - intros [= <-]. exact H0.
  - intros H. apply notifyAll_advances in H; [| apply onStateChange_advances].
    refine (advances_trans _ _ _ H0 (advances_trans _ _ _ _ H)).
    split; [| split]; cbn [state history services numIterations].
    + rewrite time_advance. unfold_constants. lra.
    + apply historyInvariant_later. rewrite time_advance. unfold_constants. lra.
    + apply evolves_refl.
Qed.

Lemma step_advances (e : Event) (w w' : World) :
  step e w = Some w' -> advances w w'.
Proof.
  destruct e; cbn [step]; try apply runSimulation_advances;
    unfold onServices; intros [= <-];
    (split; [apply Qle_refl | split]; [intros H; exact H | cbn]).
  - apply handlePostResponse_evolves.
  - apply withAsset_evolves; [reflexivity | intros H; exact H].
  - apply withAsset_evolves; unfold AssetService.retryResume.
    + rewrite processAssetData_queue. reflexivity.
    + intros H. now apply processAssetData_bounded.
  - apply withTimeSeries_evolves; unfold TimeSeriesService.onopen;
      destruct (TimeSeriesService.ws _); (reflexivity || (intros H; exact H)).
  - destruct (TimeSeriesService.ws _); try apply evolves_refl.
    apply onmessage_evolves.
  - destruct (TimeSeriesService.ws _); try apply evolves_refl;
      (apply withTimeSeries_evolves; [reflexivity | intros H; exact H]).
  - apply withTimeSeries_evolves; [reflexivity | intros H; exact H].
  - apply withTimeSeries_evolves; unfold TimeSeriesService.retryResume.
    + rewrite processTimeSeriesData_queue. reflexivity.
    + intros H. now apply processTimeSeriesData_bounded.
Qed.

Lemma run_advances (es : list Event) (w w' : World) :
  run es w = Some w' -> advances w w'.
Proof.
  revert w. induction es as [| e es IH]; intros w; cbn.
  - intros [= <-]. apply advances_refl.
  - destruct (step e w) as [w1 |] eqn:E; [| discriminate]. cbn.
    intros H. exact (advances_trans _ _ _ (step_advances _ _ _ E) (IH _ H)).
Qed.

(** In a run the gate is never asked at the sentinel: no entry of the
    history lies after the current time. *)
Lemma historyInvariant_no_sentinel (key : string) (now : Q)
    (history : gmap string HistoryEntry) :
  historyInvariant now history ->
  forall h, history !! key = Some h -> ~ (now - prevTimeSent h == -1)%Q.
Proof.
  intros Hinv h Hh Heq. destruct (Hinv key h Hh) as [_ Hle]. lra.
Qed.

Lemma run_historyInvariant (ids : list string) (es : list Event) (w : World) :
  run es (initialWorld ids) = Some w ->
  historyInvariant (time (state w)) (history w).
Proof.
  intros Hrun. destruct (run_advances _ _ _ Hrun) as (_ & Hinv & _).
  apply Hinv. intros key h Hh. cbn in Hh. now rewrite lookup_empty in Hh.
Qed.

(** ** The gate on the arguments of a run *)

(** The gate keeps every entry of the history at or before the time of the
    call. *)
Lemma sendDataToPredix_timely {D S : Type} (key : string) (data : D)
    (sendData : D -> S -> option S) (now : Q)
    (history history' : gmap string HistoryEntry) (sink sink' : S) :
  (forall k h, history !! k = Some h -> (prevTimeSent h <= now)%Q) ->
  model.sendDataToPredix key data sendData now history sink
  = Some (history', sink') ->
  forall k h, history' !! k = Some h -> (prevTimeSent h <= now)%Q.
Proof.
  intros Hinv Hrun k h Hh.
  destruct (sendDataToPredix_outcome _ _ _ _ _ _ _ _ Hrun)
    as [[-> ->] | (_ & -> & _)]; [exact (Hinv k h Hh) |].
  unfold recordSend in Hh. destruct (decide (key = k)) as [<- | Hne].
  - rewrite lookup_insert_eq in Hh. injection Hh as <-. apply Qle_refl.
  - rewrite lookup_insert_ne in Hh by exact Hne. exact (Hinv k h Hh).
Qed.

(** C1.  The gate of [sendDataToPredix] on the arguments a run gives it.
    For a key for which [model.history[key]] is an entry of the history or
    undefined, at a time that is not exactly one second before the last send
    of the key, the gate calls the send function of the sink and updates the
    history if and only if the key is eligible: its sends so far are below
    MAX_NUM_SENDS_PER_KEY, and it has no history entry or the time since its
    last send plus EPS is at least SEND_INTERVAL.  When it forwards, the
    entry of the key becomes the current time with the sends so far plus one
    (one on the first send); when it does not, the history and the sink are
    unchanged.  These are the arguments of every call in a run: each of the
    four keys of the simulator reads as an entry or as undefined, in every
    world of a run no entry is later than the simulated time, hence none
    later than the time of a following tick, and a call of the gate leaves
    no entry later than its own time for the calls that follow it in the
    same tick. *)
Theorem sampling_gate :
  (forall (D S : Type) (key : string) (data : D)
          (sendData : D -> S -> option S) (now : Q)
          (history : gmap string HistoryEntry) (sink : S),
      model.inheritedMember key history = false ->
      (forall h, history !! key = Some h -> ~ (now - prevTimeSent h == -1)%Q) ->
      (eligible key now history ->
       model.sendDataToPredix key data sendData now history sink
       = sink' ← sendData data sink; Some (recordSend key now history, sink'))
      /\ (~ eligible key now history ->
          model.sendDataToPredix key data sendData now history sink
          = Some (history, sink))
      /\ (forall sent : list D,
            (exists history',
                model.sendDataToPredix key data record now history sent
                = Some (history', sent ++ [data]))
            <-> eligible key now history))
  /\ (forall (ids : list string) (es : list Event) (w : World),
        run es (initialWorld ids) = Some w ->
        forall (key : string) (now : Q),
          key ∈ sampledKeys -> (time (state w) <= now)%Q ->
          model.inheritedMember key (history w) = false
          /\ (forall h, history w !! key = Some h ->
                (prevTimeSent h <= now)%Q
                /\ ~ (now - prevTimeSent h == -1)%Q))
  /\ (forall (D S : Type) (key : string) (data : D)
             (sendData : D -> S -> option S) (now : Q)
             (history history' : gmap string HistoryEntry) (sink sink' : S),
        (forall k h, history !! k = Some h -> (prevTimeSent h <= now)%Q) ->
        model.sendDataToPredix key data sendData now history sink
        = Some (history', sink') ->
        forall k h, history' !! k = Some h ->
          (prevTimeSent h <= now)%Q /\ ~ (now - prevTimeSent h == -1)%Q).
Proof.
  split; [| split].
  - intros D S key data sendData now history sink Hown Hsentinel.
    split; [| split];
      try apply (sendDataToPredix_eligible _ _ _ _ _ _ Hown Hsentinel).
    intros sent.
    destruct (sendDataToPredix_eligible key data record now history sent
                Hown Hsentinel) as [Hyes Hno].
    split.
    + intros [history' Hrun].
      destruct (eligible_dec key now history) as [He | Hne]; [exact He |].
      rewrite (Hno Hne) in Hrun. injection Hrun as _ Hsent.
      apply (f_equal length) in Hsent. rewrite length_app in Hsent.
      cbn in Hsent. lia.
    + intros He. rewrite (Hyes He). cbn. eexists. reflexivity.
  - intros ids es w Hrun key now Hkey Hnow.
    pose proof (run_historyInvariant _ _ _ Hrun) as Hinv.
    split.
    + unfold model.inheritedMember.
      destruct (history w !! key); [reflexivity |].
      unfold sampledKeys in Hkey.
      repeat (apply elem_of_cons in Hkey as [-> | Hkey]; [reflexivity |]).
      now apply elem_of_nil in Hkey.
    + intros h Hh. destruct (Hinv key h Hh) as [_ Hle].
      split; [exact (Qle_trans _ _ _ Hle Hnow) | lra].
  - intros D S key data sendData now history history' sink sink' Hinv Hrun k h Hh.
    pose proof (sendDataToPredix_timely _ _ _ _ _ _ _ _ Hinv Hrun k h Hh) as Hle.
    split; [exact Hle | lra].
Qed.

Lemma sampling_gate_witness :
  model.sendDataToPredix "speed" 28%Q record 200%Q
    {[ "speed" := {| prevTimeSent := 100%Q; numSends := 1 |} ]} []
  = Some (recordSend "speed" 200%Q
            {[ "speed" := {| prevTimeSent := 100%Q; numSends := 1 |} ]},
          [28%Q])
  /\ (exists w,
         run [EvRunSimulation (UaaGranted "token")] (initialWorld ["id-1"])
         = Some w
         /\ model.inheritedMember "timeSeries" (history w) = false)
  /\ (forall k h,
         recordSend "speed" 200%Q
           {[ "speed" := {| prevTimeSent := 100%Q; numSends := 1 |} ]} !! k
         = Some h ->
         (prevTimeSent h <= 200)%Q).
Proof.
  destruct sampling_gate as (Hgate & Hrun & Hkeep).
  assert (Hcall :
            model.sendDataToPredix "speed" 28%Q record 200%Q
              {[ "speed" := {| prevTimeSent := 100%Q; numSends := 1 |} ]} []
            = Some (recordSend "speed" 200%Q
                      {[ "speed" := {| prevTimeSent := 100%Q; numSends := 1 |} ]},
                    [28%Q])).
  { refine (proj1 (Hgate _ _ "speed" 28%Q record 200%Q
                     {[ "speed" := {| prevTimeSent := 100%Q; numSends := 1 |} ]}
                     [] _ _) _).
    - unfold model.inheritedMember. now rewrite lookup_singleton_eq.
    - intros h Hh. rewrite lookup_singleton_eq in Hh. injection Hh as <-.
      intros H. vm_compute in H. discriminate H.
    - split; [reflexivity |]. right. eexists.
      split; [apply lookup_singleton_eq |]. vm_compute. discriminate. }
  split; [exact Hcall | split].
  - destruct (run [EvRunSimulation (UaaGranted "token")] (initialWorld ["id-1"]))
      as [w |] eqn:E; [| vm_compute in E; discriminate E].
    exists w. split; [reflexivity |].
    refine (proj1 (Hrun _ _ _ E "timeSeries" (time (state w)) _ _)).
    + unfold sampledKeys. apply elem_of_cons. now left.
    + apply Qle_refl.
  - intros k h Hh.
    refine (proj1 (Hkeep _ _ "speed" 28%Q record 200%Q
                     {[ "speed" := {| prevTimeSent := 100%Q; numSends := 1 |} ]}
                     _ [] _ _ Hcall k h Hh)).
    intros k0 h0 Hh0.
    destruct (decide (k0 = "speed")) as [-> | Hne].
    + rewrite lookup_singleton_eq in Hh0. injection Hh0 as <-.
      vm_compute. discriminate.
    + rewrite lookup_singleton_ne in Hh0 by congruence. discriminate Hh0.
Defined.

(** ** The batch in progress *)

(** C7.  Started on an empty in-progress array, as every drain does,
    [setItemsInProgress] yields the first min(queue length,
    MAX_NODES_TO_QUEUE_PER_SEND) nodes of the queue in queue order, never
    more than the limit, and the queue is this batch followed by the nodes
    that were not taken.  A drain of either service that starts with no
    operation in progress ends with exactly this batch in progress and with
    its queue as it was.  In no world of any run does either service have
    more than the limit in progress. *)
Theorem drain_takes_queue_head :
  (forall (D : Type) (queue : list (Node D)),
      Helper.setItemsInProgress queue []
      = take (Nat.min (length queue) constants.MAX_NODES_TO_QUEUE_PER_SEND) queue
      /\ length (Helper.setItemsInProgress queue [])
         = Nat.min (length queue) constants.MAX_NODES_TO_QUEUE_PER_SEND
      /\ length (Helper.setItemsInProgress queue [])
         <= constants.MAX_NODES_TO_QUEUE_PER_SEND
      /\ queue = Helper.setItemsInProgress queue []
                 ++ drop constants.MAX_NODES_TO_QUEUE_PER_SEND queue)
  /\ (forall s : AssetService.t,
        AssetService.isOperationInProgress s = false ->
        AssetService.itemsInProgress (fst (AssetService.processAssetData s))
        = take (Nat.min (length (AssetService.queue s))
                        constants.MAX_NODES_TO_QUEUE_PER_SEND)
               (AssetService.queue s)
        /\ AssetService.queue (fst (AssetService.processAssetData s))
           = AssetService.queue s)
  /\ (forall s : TimeSeriesService.t,
        TimeSeriesService.isOperationInProgress s = false ->
        TimeSeriesService.itemsInProgress
          (fst (TimeSeriesService.processTimeSeriesData s))
        = take (Nat.min (length (TimeSeriesService.queue s))
                        constants.MAX_NODES_TO_QUEUE_PER_SEND)
               (TimeSeriesService.queue s)
        /\ TimeSeriesService.queue
             (fst (TimeSeriesService.processTimeSeriesData s))
           = TimeSeriesService.queue s)
  /\ (forall (ids : list string) (es : list Event) (w : World),
        run es (initialWorld ids) = Some w -> batchBounded (services w)).
Proof.
  split; [| split; [| split]].
  - intros D queue. rewrite setItemsInProgress_empty.
    repeat split.
    + now rewrite take_min_length.
    + rewrite length_take. apply Nat.min_comm.
    + rewrite length_take. apply Nat.le_min_l.
    + now rewrite take_drop.
  - intros s H. split.
    + rewrite take_min_length. now apply processAssetData_idle.
    + apply processAssetData_queue.
  - intros s H. split.
    + rewrite take_min_length. now apply processTimeSeriesData_idle.
    + apply processTimeSeriesData_queue.
  - intros ids es w Hrun.
    destruct (run_advances _ _ _ Hrun) as (_ & _ & _ & _ & _ & _ & Hb).
    apply Hb. split; cbn; apply Nat.le_0_l.
Qed.

Lemma drain_takes_queue_head_witness :
  AssetService.itemsInProgress
    (fst (AssetService.processAssetData
            (AssetService.set_queue
               (map (fun k => mkNode k (mkAssetData "speed" 28 1 "m"))
                    ["a"; "b"; "c"; "d"; "e"; "f"; "g"; "h"; "i"; "j"; "k"; "l"])
               (AssetService.new "t"))))
  = map (fun k => mkNode k (mkAssetData "speed" 28 1 "m"))
        ["a"; "b"; "c"; "d"; "e"; "f"; "g"; "h"; "i"; "j"]
  /\ TimeSeriesService.itemsInProgress
       (fst (TimeSeriesService.processTimeSeriesData
               (TimeSeriesService.set_queue
                  [mkNode "a" initialState; mkNode "b" initialState]
                  (TimeSeriesService.new "t"))))
     = [mkNode "a" initialState; mkNode "b" initialState]
  /\ (exists w,
         run [EvRunSimulation (UaaGranted "token"); EvWsOpen]
             (initialWorld ["id-1"]) = Some w
         /\ batchBounded (services w)).
Proof.
  destruct drain_takes_queue_head as (_ & Hasset & Hts & Hrun).
  split; [| split].
  - apply (Hasset (AssetService.set_queue
                     (map (fun k => mkNode k (mkAssetData "speed" 28 1 "m"))
                          ["a"; "b"; "c"; "d"; "e"; "f"; "g"; "h"; "i"; "j";
                           "k"; "l"])
                     (AssetService.new "t"))).
    reflexivity.
  - apply (Hts (TimeSeriesService.set_queue
                  [mkNode "a" initialState; mkNode "b" initialState]
                  (TimeSeriesService.new "t"))).
    reflexivity.
  - destruct (run [EvRunSimulation (UaaGranted "token"); EvWsOpen]
                  (initialWorld ["id-1"])) as [w |] eqn:E.
    + exists w. split; [reflexivity |]. exact (Hrun _ _ _ E).
    + vm_compute in E. discriminate E.
Defined.

(** ** The bound on the sends of a key *)

Lemma sendsSoFar_recordSend (key key' : string) (now : Q)
    (history : gmap string HistoryEntry) :
  sendsSoFar key' (recordSend key now history)
  = if decide (key = key') then (sendsSoFar key history + 1)%Z
    else sendsSoFar key' history.
Proof.
  unfold recordSend. unfold sendsSoFar at 1.
  destruct (decide (key = key')) as [<- | Hne].
  - now rewrite lookup_insert_eq.
  - now rewrite lookup_insert_ne by exact Hne.
Qed.

(** The recording sink holds, for each key, as many records as the history
    counts sends. *)
Lemma sampleAll_counts (calls : list (string * Q))
    (history history' : gmap string HistoryEntry) (sent sent' : list string) :
  (forall key,
      Z.of_nat (length (filter (fun x => x = key) sent)) = sendsSoFar key history
      /\ (sendsSoFar key history <= constants.MAX_NUM_SENDS_PER_KEY)%Z) ->
  sampleAll calls history sent = Some (history', sent') ->
  forall key,
    Z.of_nat (length (filter (fun x => x = key) sent')) = sendsSoFar key history'
    /\ (sendsSoFar key history' <= constants.MAX_NUM_SENDS_PER_KEY)%Z.
Proof.
  revert history sent.
  induction calls as [| [key0 now] calls IH]; intros history sent Hinv; cbn.
  - intros [= <- <-]. exact Hinv.
  - destruct (model.sendDataToPredix key0 key0 record now history sent)
      as [[h1 s1] |] eqn:E; [| discriminate].
    cbn. apply IH.
    destruct (sendDataToPredix_outcome _ _ _ _ _ _ _ _ E)
      as [[-> ->] | (Hsend & -> & Hlt)]; [exact Hinv |].
    injection Hsend as <-. intros key.
    rewrite sendsSoFar_recordSend, filter_app, length_app.
    destruct (Hinv key) as [Hc Hb].
    destruct (decide (key0 = key)) as [-> | Hne].
    + rewrite filter_cons_True, filter_nil by reflexivity.
      cbn [length]. split; lia.
    + rewrite filter_cons_False, filter_nil by exact Hne.
      cbn [length]. split; [lia | exact Hb].
Qed.

Lemma historyInvariant_initial (ids : list string) :
  historyInvariant (time (state (initialWorld ids)))
                   (history (initialWorld ids)).
Proof. intros key h Hh. cbn in Hh. now rewrite lookup_empty in Hh. Qed.

(** C8.  Along every run of the process from its start, whatever ticks and
    network callbacks it is made of, the send counter of every key stays at
    or below MAX_NUM_SENDS_PER_KEY.  For any sequence of samples offered to
    the gate, the values forwarded for a key are as many as its counter
    says, hence at most the maximum.  Each forward to a service appends
    exactly one node to the queue of that service. *)
Theorem sends_per_key_bounded :
  (forall (ids : list string) (es : list Event) (w : World),
      run es (initialWorld ids) = Some w ->
      forall key,
        (sendsSoFar key (history w) <= constants.MAX_NUM_SENDS_PER_KEY)%Z)
  /\ (forall (calls : list (string * Q))
             (history : gmap string HistoryEntry) (sent : list string),
        sampleAll calls ∅ [] = Some (history, sent) ->
        forall key,
          Z.of_nat (length (filter (fun x => x = key) sent))
          = sendsSoFar key history
          /\ (sendsSoFar key history <= constants.MAX_NUM_SENDS_PER_KEY)%Z)
  /\ (forall (d : AssetData) (k k' : Services),
        asset_sendDataToPredix d k = Some k' ->
        exists id,
          AssetService.queue (assetService k')
          = AssetService.queue (assetService k) ++ [mkNode id d]
          /\ timeSeriesService k' = timeSeriesService k)
  /\ (forall (d : State) (k k' : Services),
        timeSeries_sendDataToPredix d k = Some k' ->
        exists id,
          TimeSeriesService.queue (timeSeriesService k')
          = TimeSeriesService.queue (timeSeriesService k) ++ [mkNode id d]
          /\ assetService k' = assetService k).
Proof.
  split; [| split; [| split]].
  - intros ids es w Hrun key.
    destruct (run_advances _ _ _ Hrun) as (_ & Hinv & _).
    apply (sendsSoFar_nonneg key (time (state w))), Hinv,
      historyInvariant_initial.
  - intros calls history sent H.
    refine (sampleAll_counts calls ∅ history [] sent _ H).
    intros key. unfold sendsSoFar. rewrite lookup_empty.
    unfold constants.MAX_NUM_SENDS_PER_KEY. split; [reflexivity | lia].
  - intros d k k' H.
    destruct (asset_sendDataToPredix_Some _ _ _ H) as (id & Hq & Hts & _).
    now exists id.
  - intros d k k' H.
    destruct (timeSeries_sendDataToPredix_Some _ _ _ H) as (id & Hq & Has & _).
    now exists id.
Qed.

Lemma sends_per_key_bounded_witness :
  (exists w,
      run [EvRunSimulation (UaaGranted "token"); EvWsOpen; EvWsMessage;
           EvRunSimulation (UaaGranted "token")]
          (initialWorld ["id-1"; "id-2"]) = Some w
      /\ (sendsSoFar "timeSeries" (history w)
          <= constants.MAX_NUM_SENDS_PER_KEY)%Z)
  /\ (exists history sent,
         sampleAll [("speed", 1%Q); ("speed", 2%Q); ("speed", 200%Q)] ∅ []
         = Some (history, sent)
         /\ Z.of_nat (length (filter (fun x => x = "speed") sent))
            = sendsSoFar "speed" history)
  /\ (exists k' id,
         asset_sendDataToPredix (mkAssetData "speed" 28 1 "m")
           (services (initialWorld ["id-1"])) = Some k'
         /\ AssetService.queue (assetService k')
            = [] ++ [mkNode id (mkAssetData "speed" 28 1 "m")]).
Proof.
  destruct sends_per_key_bounded as (Hrun & Hgate & Hasset & _).
  split; [| split].
  - destruct (run [EvRunSimulation (UaaGranted "token"); EvWsOpen; EvWsMessage;
                   EvRunSimulation (UaaGranted "token")]
                  (initialWorld ["id-1"; "id-2"])) as [w |] eqn:E.
    + exists w. split; [reflexivity |]. exact (Hrun _ _ _ E "timeSeries").
    + vm_compute in E. discriminate E.
  - destruct (sampleAll [("speed", 1%Q); ("speed", 2%Q); ("speed", 200%Q)] ∅ [])
      as [[history sent] |] eqn:E.
    + exists history, sent. split; [reflexivity |].
      exact (proj1 (Hgate _ _ _ E "speed")).
    + vm_compute in E. discriminate E.
  - destruct (asset_sendDataToPredix (mkAssetData "speed" 28 1 "m")
                (services (initialWorld ["id-1"]))) as [k' |] eqn:E.
    + destruct (Hasset _ _ _ E) as (id & Hq & _).
      exists k', id. split; [reflexivity | exact Hq].
    + vm_compute in E. discriminate E.
Defined.

(** ** Removal by key *)








Example removedAlong_one_delivery :
  removedAlong [EvRunSimulation (UaaGranted "token"); EvWsOpen; EvWsMessage;
                EvWsMessage]
               (initialWorld ["id-1"])
  = ["id-1"].
Proof. vm_compute. reflexivity. Qed.

(** ** Credential failure at start-up *)

(** C4, amended.  [getPredixToken] reports a failed acquisition as the value
    'no_token'.  The verification utility returns on that value before it
    queries a sink.  [runSimulation] does not test for it: a rejected token
    request has the effect of a granted one whose token is 'no_token'; from
    the start of the process the first call constructs both services with
    that token, counts its iteration, and the first drain opens the socket
    with it as bearer. *)
Theorem credential_failure_is_a_value :
  Helper.getPredixToken UaaRejected = "no_token"
  /\ runVerification_start UaaRejected = None
  /\ (forall w : World,
        runSimulation UaaRejected w = runSimulation (UaaGranted "no_token") w)
  /\ (forall (id : string) (rest : list string),
        exists w,
          runSimulation UaaRejected (initialWorld (id :: rest)) = Some w
          /\ numIterations w = 1%Z
          /\ TimeSeriesService.token (timeSeriesService (services w)) = "no_token"
          /\ AssetService.token (assetService (services w)) = "no_token"
          /\ keys (TimeSeriesService.queue (timeSeriesService (services w))) = [id]
          /\ outbox (services w) = [UaaRequest; WsConnect "no_token"]).
Proof.
  split; [reflexivity | split; [reflexivity | split; [reflexivity |]]].
  intros id rest. eexists. split; [vm_compute; reflexivity |].
  repeat split.
Qed.

(** The claim C4 as worded fails: in a run whose first token acquisition
    fails, the time series sink is sent the first sample, both when it lets
    the socket open and when it refuses it and the retry obtains a token. *)
Lemma credential_failure_still_sends :
  (exists w body,
      run [EvRunSimulation UaaRejected; EvWsOpen] (initialWorld ["id-1"])
      = Some w
      /\ outbox (services w)
         = [UaaRequest; WsConnect "no_token"; WsSend body]
      /\ body <> [])
  /\ (exists w body,
         run [EvRunSimulation UaaRejected; EvWsError; EvTimeSeriesRetryTimer;
              EvTimeSeriesRetryResume (UaaGranted "token"); EvWsOpen]
             (initialWorld ["id-1"])
         = Some w
         /\ outbox (services w)
            = [UaaRequest; WsConnect "no_token";
               SetTimeout TimeSeriesRetry 5000; UaaRequest;
               WsConnect "token"; WsSend body]
         /\ body <> []).
Proof.
  split.
  - eexists. eexists. split; [vm_compute; reflexivity |].
    split; [reflexivity | discriminate].
  - eexists. eexists. split; [vm_compute; reflexivity |].
    split; [reflexivity | discriminate].
Qed.

(** * Further properties of the code *)

(** ** The pipeline keeps its bounds *)

Section PipelineBounds.
Local Open Scope Q_scope.
Import processes.

Ltac unfold_physics :=
  unfold_constants;
  unfold constants.X1, constants.X2, constants.X3 in *.

Lemma pipelineBounds_init : pipelineBounds initialState.
Proof. unfold pipelineBounds; cbn. unfold_physics. repeat split; lra. Qed.

Lemma Fireman_fields (s : State) :
  (Fireman s = s
   \/ (0 <= fuelMassInTender s
       /\ fuelMassInFireChamber s <= constants.MAX_FUEL_MASS_IN_FIRE_CHAMBER
       /\ fuelMassInTender (Fireman s)
          = fuelMassInTender s - constants.FUEL_ADD_AMT
       /\ fuelMassInFireChamber (Fireman s)
          = fuelMassInFireChamber s + constants.FUEL_ADD_AMT))
  /\ distance (Fireman s) = distance s
  /\ fuelMassBurning (Fireman s) = fuelMassBurning s
  /\ locomotiveOwnMass (Fireman s) = locomotiveOwnMass s
  /\ pressure (Fireman s) = pressure s
  /\ speed (Fireman s) = speed s
  /\ time (Fireman s) = time s.
Proof.
  unfold Fireman.
  case_Qltb (fuelMassInTender s) 0; cbn [orb].
  { repeat split; now left. }
  case_Qltb constants.MAX_FUEL_MASS_IN_FIRE_CHAMBER (fuelMassInFireChamber s).
  { repeat split; now left. }
  cbn. repeat split. right. repeat split; assumption.
Qed.

(** The two outcomes of the dead-zone rule. *)
Lemma Movement_speed_cases (s : State) :
  (speed s == 0 /\ Qabs (rawAcceleration s) < constants.X3
   /\ speed (Movement s) = speed s + constants.DT * 0)
  \/ (~ (speed s == 0 /\ Qabs (rawAcceleration s) < constants.X3)
      /\ speed (Movement s) = speed s + constants.DT * rawAcceleration s).
Proof.
  unfold Movement, rawAcceleration, totalMass. cbn [speed set_time set_distance set_speed].
  destruct (Qeq_bool (speed s) 0) eqn:E0; cbn [andb].
  - apply Qeq_bool_iff in E0.
    match goal with |- context [Qltb ?x ?y] => case_Qltb x y end.
    + left. repeat split; assumption.
    + right. split; [| reflexivity]. intros [_ Hlt].
      exact (Qlt_not_le _ _ Hlt E).
  - right. split; [| reflexivity]. intros [H0 _].
    apply Qeq_bool_iff in H0. congruence.
Qed.

Lemma rawAcceleration_mass (s : State) :
  0 < totalMass s ->
  totalMass s * rawAcceleration s
  == constants.X1 * pressure s - constants.X2 * speed s.
Proof.
  intros Hm. unfold rawAcceleration. apply Qmult_div_r.
  intros H0. rewrite H0 in Hm. exact (Qlt_irrefl _ Hm).
Qed.

Lemma Movement_speed_bounds (s : State) (P : Q) :
  constants.DT * constants.X2 < totalMass s ->
  0 <= pressure s -> pressure s <= P ->
  0 <= speed s -> constants.X2 * speed s <= constants.X1 * P ->
  0 <= speed (Movement s)
  /\ constants.X2 * speed (Movement s) <= constants.X1 * P.
Proof.
  intros Hm Hp0 HpP Hv0 HvP.
  assert (Hm0 : 0 < totalMass s) by (unfold_physics; lra).
  pose proof (rawAcceleration_mass s Hm0) as Ha.
  destruct (Movement_speed_cases s) as [(_ & _ & ->) | (_ & ->)].
  - unfold_physics. split; lra.
  - revert Ha. generalize (rawAcceleration s) as a.
    revert Hm Hm0. generalize (totalMass s) as m. intros m Hm Hm0 a Ha.
    unfold_physics. split; nra.
Qed.

Lemma advance_pipelineBounds (s : State) :
  pipelineBounds s -> pipelineBounds (advance s).
Proof.
  intros (Hown & Ht & Htc & Hb0 & Hbc & Hc & Hp0 & Hp & Hv0 & Hv & Hd).
  change (advance s) with (Movement (FireChamber (Fireman s))).
  destruct (Fireman_fields s) as (Hfire & Hd1 & Hb1 & Hown1 & Hp1 & Hv1 & _).
  set (s1 := Fireman s) in *.
  assert (H1 : - constants.FUEL_ADD_AMT <= fuelMassInTender s1
               /\ fuelMassInTender s1 + fuelMassInFireChamber s1
                  <= constants.INITIAL_FUEL_MASS_IN_TENDER
               /\ fuelMassInFireChamber s <= fuelMassInFireChamber s1
               /\ fuelMassInFireChamber s1
                  <= constants.MAX_FUEL_MASS_IN_FIRE_CHAMBER
                     + constants.FUEL_ADD_AMT).
  { destruct Hfire as [-> | (Ht0 & Hc10 & -> & ->)];
      unfold_constants; repeat split; lra. }
  destruct H1 as (Ht1 & Htc1 & Hcc1 & Hc1).
  assert (Hb0' : 0 <= fuelMassBurning s1) by (rewrite Hb1; exact Hb0).
  assert (Hbc' : fuelMassBurning s1 <= fuelMassInFireChamber s1)
    by (rewrite Hb1; lra).
  destruct (burningAfterCatchUp_bounds s1 Hb0' Hbc') as [HA0 HAc].
  destruct (FireChamber_fields s1)
    as (Hp2 & Hb2 & Hc2 & Hd2 & Ht2 & Hown2 & Hv2 & _).
  set (s2 := FireChamber s1) in *.
  assert (H2 : 0 <= fuelMassBurning s2
               /\ fuelMassBurning s2 <= fuelMassInFireChamber s2
               /\ fuelMassInFireChamber s2 <= fuelMassInFireChamber s1
               /\ fuelMassInFireChamber s2
                  <= constants.MAX_FUEL_MASS_IN_FIRE_CHAMBER
                     + constants.FUEL_ADD_AMT - constants.FUEL_BURN_AMT
               /\ 0 <= fuelMassInFireChamber s2).
  { rewrite Hb2, Hc2.
    case_Qmax 0 (burningAfterCatchUp s1 - constants.FUEL_BURN_AMT);
      case_Qmax 0 (fuelMassInFireChamber s1 - constants.FUEL_BURN_AMT);
      rewrite Hmax, Hmax0; unfold_constants; repeat split; lra. }
  destruct H2 as (Hb20 & Hb2c & Hc21 & Hc2m & Hc20).
  assert (Hspeed : 0 <= speed (Movement s2)
                   /\ constants.X2 * speed (Movement s2)
                      <= constants.X1
                         * (constants.PRESSURE_MULTIPLIER
                            * (constants.MAX_FUEL_MASS_IN_FIRE_CHAMBER
                               + constants.FUEL_ADD_AMT))).
  { apply Movement_speed_bounds.
    - unfold totalMass. rewrite Hown2, Hown1, Ht2, Hown. unfold_physics. lra.
    - rewrite Hp2. unfold_constants. lra.
    - rewrite Hp2. unfold_constants. lra.
    - rewrite Hv2, Hv1. exact Hv0.
    - rewrite Hv2, Hv1. exact Hv. }
  destruct Hspeed as [Hs0 Hs1].
  unfold pipelineBounds.
  change (locomotiveOwnMass (Movement s2)) with (locomotiveOwnMass s2).
  change (fuelMassInTender (Movement s2)) with (fuelMassInTender s2).
  change (fuelMassInFireChamber (Movement s2)) with (fuelMassInFireChamber s2).
  change (fuelMassBurning (Movement s2)) with (fuelMassBurning s2).
  change (pressure (Movement s2)) with (pressure s2).
  change (distance (Movement s2))
    with (distance s2 + constants.DT * speed s2).
  rewrite Hown2, Hown1, Ht2, Hd2, Hd1, Hv2, Hv1, Hp2.
  unfold_constants. repeat split; try assumption; try lra.
Qed.

Lemma pipelineBounds_reachable (s : State) :
  reachable s -> pipelineBounds s.
Proof.
  induction 1 as [| s _ IH];
    [apply pipelineBounds_init | apply advance_pipelineBounds, IH].
Qed.

(** X1.  In every reachable state the total mass that the Movement stage
    divides by is positive, not less than the locomotive's own mass minus one
    fuel quantum and not more than its own mass plus the initial fuel; so
    the stage never divides by zero. *)
Theorem reachable_mass_positive (s : State) :
  reachable s ->
  constants.LOCOMOTIVE_OWN_MASS - constants.FUEL_ADD_AMT <= totalMass s
  /\ totalMass s
     <= constants.LOCOMOTIVE_OWN_MASS + constants.INITIAL_FUEL_MASS_IN_TENDER
  /\ 0 < totalMass s.
Proof.
  intros Hr.
  destruct (pipelineBounds_reachable s Hr)
    as (Hown & Ht & Htc & Hb0 & Hbc & _).
  assert (Hlow : constants.LOCOMOTIVE_OWN_MASS - constants.FUEL_ADD_AMT
                 <= totalMass s)
    by (unfold totalMass; rewrite Hown; unfold_constants; lra).
  assert (Hpos : 0 < totalMass s) by (unfold_constants; lra).
  repeat split; try assumption.
  unfold totalMass. rewrite Hown. unfold_constants. lra.
Qed.

Lemma reachable_mass_positive_witness :
  0 < totalMass (advance initialState).
Proof.
  refine (proj2 (proj2 (reachable_mass_positive (advance initialState) _))).
  apply reachable_step, reachable_init.
Defined.

(** X2.  The fire chamber saturates: in every reachable state its mass is at
    most MAX_FUEL_MASS_IN_FIRE_CHAMBER + FUEL_ADD_AMT - FUEL_BURN_AMT, and the
    pressure is at most PRESSURE_MULTIPLIER times
    (MAX_FUEL_MASS_IN_FIRE_CHAMBER + FUEL_ADD_AMT). *)
Theorem fire_chamber_saturates (s : State) :
  reachable s ->
  fuelMassInFireChamber s
  <= constants.MAX_FUEL_MASS_IN_FIRE_CHAMBER + constants.FUEL_ADD_AMT
     - constants.FUEL_BURN_AMT
  /\ pressure s
     <= constants.PRESSURE_MULTIPLIER
        * (constants.MAX_FUEL_MASS_IN_FIRE_CHAMBER + constants.FUEL_ADD_AMT).
Proof.
  intros Hr.
  destruct (pipelineBounds_reachable s Hr)
    as (_ & _ & _ & _ & _ & Hc & _ & Hp & _).
  split; assumption.
Qed.

Lemma fire_chamber_saturates_witness :
  pressure (advance (advance initialState))
  <= constants.PRESSURE_MULTIPLIER
     * (constants.MAX_FUEL_MASS_IN_FIRE_CHAMBER + constants.FUEL_ADD_AMT).
Proof.
  apply (fire_chamber_saturates (advance (advance initialState))).
  apply reachable_step, reachable_step, reachable_init.
Defined.

(** X3.  In every reachable state the speed is not negative and X2 times the
    speed is at most X1 times the highest pressure, so the locomotive never
    runs backwards nor faster than its terminal speed; the distance is not
    negative and no tick decreases it. *)
Theorem speed_within_terminal_speed (s : State) :
  reachable s ->
  0 <= speed s
  /\ constants.X2 * speed s
     <= constants.X1
        * (constants.PRESSURE_MULTIPLIER
           * (constants.MAX_FUEL_MASS_IN_FIRE_CHAMBER + constants.FUEL_ADD_AMT))
  /\ 0 <= distance s
  /\ distance s <= distance (advance s).
Proof.
  intros Hr.
  destruct (pipelineBounds_reachable s Hr)
    as (_ & _ & _ & _ & _ & _ & _ & _ & Hv0 & Hv & Hd).
  repeat split; try assumption.
  change (advance s) with (Movement (FireChamber (Fireman s))).
  change (distance (Movement (FireChamber (Fireman s))))
    with (distance (FireChamber (Fireman s))
          + constants.DT * speed (FireChamber (Fireman s))).
  destruct (FireChamber_fields (Fireman s))
    as (_ & _ & _ & Hd2 & _ & _ & Hv2 & _).
  destruct (Fireman_fields s) as (_ & Hd1 & _ & _ & _ & Hv1 & _).
  rewrite Hd2, Hv2, Hd1, Hv1. unfold_constants. lra.
Qed.

Lemma speed_within_terminal_speed_witness :
  0 <= speed (advance (advance initialState)).
Proof.
  apply (speed_within_terminal_speed (advance (advance initialState))).
  apply reachable_step, reachable_step, reachable_init.
Defined.

(** X4.  Fuel moves one way only, a quantum at a time: over a tick from a
    reachable state the tender never gains fuel, the fire chamber gains at
    most FUEL_ADD_AMT, and it gains nothing in a tick in which the tender
    keeps its fuel. *)
Theorem fuel_flows_one_way (s : State) :
  reachable s ->
  fuelMassInTender (advance s) <= fuelMassInTender s
  /\ fuelMassInFireChamber (advance s)
     <= fuelMassInFireChamber s + constants.FUEL_ADD_AMT
  /\ (fuelMassInTender (advance s) == fuelMassInTender s ->
      fuelMassInFireChamber (advance s) <= fuelMassInFireChamber s).
Proof.
  intros Hr.
  destruct (pipelineBounds_reachable s Hr)
    as (_ & _ & _ & Hb0 & Hbc & _).
  assert (Hc0 : 0 <= fuelMassInFireChamber s) by lra.
  change (advance s) with (Movement (FireChamber (Fireman s))).
  change (fuelMassInTender (Movement (FireChamber (Fireman s))))
    with (fuelMassInTender (FireChamber (Fireman s))).
  change (fuelMassInFireChamber (Movement (FireChamber (Fireman s))))
    with (fuelMassInFireChamber (FireChamber (Fireman s))).
  destruct (FireChamber_fields (Fireman s)) as (_ & _ & Hc2 & _ & Ht2 & _).
  rewrite Hc2, Ht2.
  destruct (Fireman_fields s) as ([E | (_ & _ & Et & Ec)] & _).
  - rewrite E.
    case_Qmax 0 (fuelMassInFireChamber s - constants.FUEL_BURN_AMT);
      rewrite Hmax; unfold_constants;
      (split; [| split; [| intros _]]); lra.
  - rewrite Et, Ec.
    case_Qmax 0 (fuelMassInFireChamber s + constants.FUEL_ADD_AMT
                 - constants.FUEL_BURN_AMT);
      rewrite Hmax; unfold_constants;
      (split; [| split; [| intros Hsame]]); lra.
Qed.

Lemma fuel_flows_one_way_witness :
  fuelMassInTender (advance initialState) <= fuelMassInTender initialState.
Proof.
  refine (proj1 (fuel_flows_one_way initialState _)). apply reachable_init.
Defined.

(** X6.  The dead-zone rule: from rest, and with a positive total mass, as
    every reachable state has it, the Movement stage either leaves the speed
    at zero or sets it to DT times an acceleration of magnitude at least X3;
    it never starts the locomotive with a smaller speed than DT * X3. *)
Theorem no_creep_from_rest (s : State) :
  0 < totalMass s ->
  speed s == 0 ->
  speed (Movement s) == 0
  \/ (constants.DT * constants.X3 <= Qabs (speed (Movement s))
      /\ speed (Movement s) == constants.DT * rawAcceleration s).
Proof.
  intros _ H0.
  destruct (Movement_speed_cases s) as [(_ & _ & ->) | (Hn & ->)].
  - left. rewrite H0. unfold_constants. lra.
  - right.
    assert (Ha : constants.X3 <= Qabs (rawAcceleration s)).
    { apply Qnot_lt_le. intros Hlt. apply Hn. now split. }
    assert (E : speed s + constants.DT * rawAcceleration s
                == constants.DT * rawAcceleration s) by (rewrite H0; lra).
    split; [| exact E].
    rewrite E, Qabs_Qmult.
    assert (Hdt : Qabs constants.DT == constants.DT) by reflexivity.
    rewrite Hdt. unfold_physics. lra.
Qed.

Lemma no_creep_from_rest_witness :
  speed (Movement initialState) == 0
  \/ (constants.DT * constants.X3 <= Qabs (speed (Movement initialState))
      /\ speed (Movement initialState)
         == constants.DT * rawAcceleration initialState).
Proof.
  apply (no_creep_from_rest initialState); [| reflexivity].
  vm_compute. reflexivity.
Defined.

End PipelineBounds.

(** ** Simulated time and the tick counter *)

Lemma iterate_succ_r (n : nat) (s : State) :
  iterate (S n) s = advance (iterate n s).
Proof.
  revert s. induction n as [| n IH]; intros s; [reflexivity |].
  change (iterate (S (S n)) s) with (iterate (S n) (advance s)).
  rewrite IH. reflexivity.
Qed.

Lemma time_iterate (n : nat) (s : State) :
  (time (iterate n s) == time s + inject_Z (Z.of_nat n) * constants.DT)%Q.
Proof.
  induction n as [| n IH].
  - cbn [iterate]. change (inject_Z (Z.of_nat 0)) with 0%Q. lra.
  - rewrite iterate_succ_r, time_advance, IH.
    rewrite Nat2Z.inj_succ. unfold Z.succ. rewrite inject_Z_plus.
    change (inject_Z 1) with 1%Q. lra.
Qed.

Lemma Math_round_integer (z : Z) (x : Q) :
  (x == inject_Z z)%Q -> Math_round x = z.
Proof.
  intros Hx. unfold Math_round.
  pose proof (Qfloor_le (x + (1 # 2))) as Hle.
  pose proof (Qlt_floor (x + (1 # 2))) as Hlt.
  set (f := Qfloor (x + (1 # 2))) in *.
  rewrite inject_Z_plus in Hlt. change (inject_Z 1) with 1%Q in Hlt.
  rewrite Hx in Hle, Hlt.
  destruct (Z.lt_trichotomy f z) as [Hfz | [-> | Hzf]]; [| reflexivity |];
    exfalso.
  - assert (H1 : (f + 1 <= z)%Z) by lia.
    rewrite Zle_Qle in H1. rewrite inject_Z_plus in H1.
    change (inject_Z 1) with 1%Q in H1. lra.
  - assert (H1 : (z + 1 <= f)%Z) by lia.
    rewrite Zle_Qle in H1. rewrite inject_Z_plus in H1.
    change (inject_Z 1) with 1%Q in H1. lra.
Qed.

(** What [stampsUpTo] checks. *)
Lemma stampsUpTo_sound (n : nat) (time : PrimFloat.float) (ms : Z) :
  Double.stampsUpTo n time ms = true ->
  forall j, j <= n ->
    Double.timestamp (Double.timeAfter j time)
    = Some (ms + 100 * Z.of_nat j)%Z
    /\ (j < n ->
        PrimFloat.ltb (Double.timeAfter j time)
                      (Double.timeAfter (S j) time) = true).
Proof.
  revert time ms. induction n as [| n IH]; intros time ms H j Hj;
    cbn [Double.stampsUpTo] in H; apply andb_true_iff in H as [H1 H2].
  - assert (j = 0) as -> by lia. cbn [Double.timeAfter].
    destruct (Double.timestamp time) as [z |]; [| discriminate H1].
    apply Z.eqb_eq in H1. subst z. split; [f_equal; lia | lia].
  - apply andb_true_iff in H2 as [Hlt H2].
    destruct j as [| j].
    + cbn [Double.timeAfter].
      destruct (Double.timestamp time) as [z |]; [| discriminate H1].
      apply Z.eqb_eq in H1. subst z. split; [f_equal; lia |].
      intros _. exact Hlt.
    + change (Double.timeAfter (S (S j)) time)
        with (Double.timeAfter (S j) (PrimFloat.add time Double.DT)).
      change (Double.timeAfter (S j) time)
        with (Double.timeAfter j (PrimFloat.add time Double.DT)).
      destruct (IH _ _ H2 j ltac:(lia)) as [Hstamp Hgrow].
      split; [rewrite Hstamp; f_equal; lia |].
      intros Hlt'. apply Hgrow. lia.
Qed.

(** The check of all the ticks of a run, by computation. *)
Lemma stamps_of_a_run :
  Double.stampsUpTo (Z.to_nat constants.NUM_ITERATIONS) Double.time0 0 = true.
Proof. vm_cast_no_check (eq_refl true). Qed.

(** X5.  The time stamps of a run, in binary64 as the program computes
    them: for every [n] up to NUM_ITERATIONS, the millisecond stamp that
    both services compute from the time after [n] ticks,
    Math.round(time * 1000), is exactly 100 n, whatever the additions of DT
    have rounded, and the time grows with every tick.  The exact arithmetic
    of the embedding gives the same stamps. *)
Theorem timestamps_count_ticks (n : nat) :
  (Z.of_nat n <= constants.NUM_ITERATIONS)%Z ->
  Double.timestamp (Double.timeAfter n Double.time0)
  = Some (100 * Z.of_nat n)%Z
  /\ Double.timestamp (Double.timeAfter n Double.time0)
     = Some (Math_round (time (iterate n initialState) * 1000)%Q)
  /\ ((Z.of_nat n < constants.NUM_ITERATIONS)%Z ->
      PrimFloat.ltb (Double.timeAfter n Double.time0)
                    (Double.timeAfter (S n) Double.time0) = true).
Proof.
  intros Hn.
  destruct (stampsUpTo_sound _ _ _ stamps_of_a_run n ltac:(lia))
    as [Hstamp Hgrow].
  assert (Hexact : Math_round (time (iterate n initialState) * 1000)%Q
                   = (100 * Z.of_nat n)%Z).
  { pose proof (time_iterate n initialState) as Ht.
    change (time initialState) with 0%Q in Ht.
    apply Math_round_integer. rewrite Ht, inject_Z_mult.
    change (inject_Z 100) with 100%Q. unfold_constants. lra. }
  rewrite Hexact, Hstamp. split; [reflexivity | split; [reflexivity |]].
  intros Hlt. apply Hgrow. lia.
Qed.

Lemma timestamps_count_ticks_witness :
  Double.timestamp (Double.timeAfter 3 Double.time0) = Some 300%Z.
Proof.
  refine (proj1 (timestamps_count_ticks 3 _)).
  unfold constants.NUM_ITERATIONS. lia.
Defined.

(** Whatever relation the two senders of [onStateChange] keep when they are
    called as [onStateChange] calls them, a whole notification keeps. *)
Lemma notifyAll_rel (R : World -> World -> Prop) :
  (forall w, R w w) ->
  (forall a b c, R a b -> R b c -> R a c) ->
  (forall w w', toTimeSeries (state w) w = Some w' -> R w w') ->
  (forall key val msg w w',
      alertRaised (state w) key val ->
      toAsset key val msg w = Some w' -> R w w') ->
  forall w w', notifyAll onStateChange w = Some w' -> R w w'.
Proof.
  intros Hrefl Htrans Hts Has.
  assert (Hfs : forall f, In f onStateChange ->
             forall w w', f (state w) w = Some w' -> R w w').
  { intros f [<- | [<- | [<- | [<- | []]]]] w w'.
    - apply Hts.
    - match goal with |- context [Qltb ?x ?y] => case_Qltb x y end;
        [| intros [= <-]; apply Hrefl].
      apply Has. left. auto.
    - match goal with |- context [Qltb ?x ?y] => case_Qltb x y end;
        [| intros [= <-]; apply Hrefl].
      apply Has. right; left. auto.
    - match goal with |- context [Qltb ?x ?y] => case_Qltb x y end;
        [| intros [= <-]; apply Hrefl].
      apply Has. right; right. auto. }
  revert Hfs. unfold notifyAll. generalize onStateChange as fs.
  intros fs Hfs w.
  assert (Hgen : forall acc w',
             foldl (fun acc f => w0 ← acc; f (state w0) w0) acc fs = Some w' ->
             exists w0, acc = Some w0 /\ R w0 w').
  { induction fs as [| f fs IH]; intros acc w' H; cbn in H.
    - exists w'. split; [exact H | apply Hrefl].
    - destruct (IH (fun g Hg => Hfs g (or_intror Hg)) _ _ H) as (w1 & Hw1 & Ha).
      destruct acc as [w0 |]; [| discriminate]. cbn in Hw1.
      exists w0. split; [reflexivity |].
      exact (Htrans _ _ _ (Hfs f (or_introl eq_refl) _ _ Hw1) Ha). }
  intros w' H. destruct (Hgen _ _ H) as (w0 & [= <-] & Ha). exact Ha.
Qed.

Lemma notifyAll_frame (w w' : World) :
  notifyAll onStateChange w = Some w' ->
  state w' = state w /\ numIterations w' = numIterations w.
Proof.
  apply (notifyAll_rel
           (fun a b => state b = state a /\ numIterations b = numIterations a)).
  - intros a. split; reflexivity.
  - intros a b c [H1 H2] [H3 H4]. split; congruence.
  - intros w0 w1. unfold toTimeSeries.
    destruct (model.sendDataToPredix _ _ _ _ _ _) as [[h k] |];
      [| discriminate].
    cbn. intros [= <-]. split; reflexivity.
  - intros key val msg w0 w1 _. unfold toAsset.
    destruct (model.sendDataToPredix _ _ _ _ _ _) as [[h k] |];
      [| discriminate].
    cbn. intros [= <-]. split; reflexivity.
Qed.

(** What one call of [runSimulation] does to the counter and the state. *)
Lemma runSimulation_tick (reply : UaaResult) (w w' : World) :
  runSimulation reply w = Some w' ->
  ((constants.NUM_ITERATIONS <= numIterations w)%Z
   /\ numIterations w' = numIterations w /\ state w' = state w)
  \/ ((numIterations w < constants.NUM_ITERATIONS)%Z
      /\ numIterations w' = (numIterations w + 1)%Z
      /\ state w' = advance (state w)).
Proof.
  unfold runSimulation.
  set (w0 := if (numIterations w =? 0)%Z then _ else w).
  assert (H0 : numIterations w0 = numIterations w /\ state w0 = state w).
  { subst w0. destruct (numIterations w =? 0)%Z; split; reflexivity. }
  destruct H0 as [Hn0 Hs0]. rewrite Hn0.
  destruct (Z.leb_spec constants.NUM_ITERATIONS (numIterations w)) as [Hle | Hlt].
  - intros [= <-]. left. auto.
  - intros H. apply notifyAll_frame in H. cbn in H. destruct H as [Hs Hn].
    right. rewrite Hs, Hn, Hs0. auto.
Qed.

Lemma step_tick (e : Event) (w w' : World) :
  step e w = Some w' ->
  match e with
  | EvRunSimulation _ =>
      ((constants.NUM_ITERATIONS <= numIterations w)%Z
       /\ numIterations w' = numIterations w /\ state w' = state w)
      \/ ((numIterations w < constants.NUM_ITERATIONS)%Z
          /\ numIterations w' = (numIterations w + 1)%Z
          /\ state w' = advance (state w))
  | _ => numIterations w' = numIterations w /\ state w' = state w
  end.
Proof.
  destruct e; cbn [step]; try apply runSimulation_tick;
    unfold onServices; intros [= <-]; split; reflexivity.
Qed.

Lemma run_ticks (es : list Event) (w0 w : World) :
  (0 <= numIterations w0 <= constants.NUM_ITERATIONS)%Z ->
  run es w0 = Some w ->
  numIterations w
  = Z.min (numIterations w0 + Z.of_nat (ticks es)) constants.NUM_ITERATIONS
  /\ state w
     = iterate (Z.to_nat (numIterations w - numIterations w0)) (state w0).
Proof.
  revert w0. induction es as [| e es IH]; intros w0 Hn0; cbn [run].
  - intros [= <-]. cbn [ticks]. rewrite Z.sub_diag. split; [lia | reflexivity].
  - destruct (step e w0) as [w1 |] eqn:E; [| discriminate]. cbn.
    intros Hrun. pose proof (step_tick _ _ _ E) as Hstep.
    assert (Hsame : numIterations w1 = numIterations w0 ->
                    state w1 = state w0 ->
                    numIterations w
                    = Z.min (numIterations w0 + Z.of_nat (ticks es))
                            constants.NUM_ITERATIONS
                    /\ state w
                       = iterate (Z.to_nat (numIterations w - numIterations w0))
                                 (state w0)).
    { intros Hn Hs. rewrite <- Hn, <- Hs. apply IH; [lia | exact Hrun]. }
    destruct e; cbn [ticks];
      try (destruct Hstep as [Hn Hs]; exact (Hsame Hn Hs)).
    destruct Hstep as [(Hle & Hn & Hs) | (Hlt & Hn & Hs)].
    + destruct (Hsame Hn Hs) as [Hw Hst]. split; [lia | exact Hst].
    + destruct (IH w1 ltac:(lia) Hrun) as [Hw Hst]. split; [lia |].
      rewrite Hst, Hs.
      replace (Z.to_nat (numIterations w - numIterations w0))
        with (S (Z.to_nat (numIterations w - numIterations w1))) by lia.
      reflexivity.
Qed.

(** X7.  The physical state does not depend on the network: whatever
    callbacks of sockets, requests, timers and token requests are interleaved
    with the calls of [runSimulation], and whatever their outcomes, after a
    run the iteration counter is the number of those calls capped at
    NUM_ITERATIONS, and the state is the pipeline applied that many times to
    the initial state. *)
Theorem state_follows_ticks_only (ids : list string) (es : list Event)
    (w : World) :
  run es (initialWorld ids) = Some w ->
  numIterations w = Z.min (Z.of_nat (ticks es)) constants.NUM_ITERATIONS
  /\ state w = iterate (Z.to_nat (numIterations w)) initialState.
Proof.
  intros Hrun.
  destruct (run_ticks es (initialWorld ids) w) as [Hn Hs];
    [cbn; unfold constants.NUM_ITERATIONS; lia | exact Hrun |].
  cbn [numIterations initialWorld] in Hn, Hs.
  rewrite Z.sub_0_r in Hs. split; [exact Hn | exact Hs].
Qed.

Lemma state_follows_ticks_only_witness :
  exists w,
    run [EvRunSimulation UaaRejected; EvWsError; EvTimeSeriesRetryTimer;
         EvRunSimulation UaaRejected]
        (initialWorld ["id-1"]) = Some w
    /\ numIterations w = 2%Z
    /\ state w = iterate (Z.to_nat (numIterations w)) initialState.
Proof.
  destruct (run [EvRunSimulation UaaRejected; EvWsError; EvTimeSeriesRetryTimer;
                 EvRunSimulation UaaRejected]
                (initialWorld ["id-1"])) as [w |] eqn:E.
  - exists w. split; [reflexivity |].
    destruct (state_follows_ticks_only _ _ _ E) as [Hn Hs].
    split; [exact Hn | exact Hs].
  - vm_compute in E. discriminate E.
Defined.

(** ** More on Helper *)

Section HelperMore.
Context {D : Type}.
Implicit Types (queue items : list (Node D)).



Lemma filter_none (P : Node D -> Prop) `{!forall n, Decision (P n)} queue :
  Forall (fun n => ~ P n) queue -> filter P queue = [].
Proof.
  induction 1 as [| n queue Hn _ IH]; [reflexivity |].
  now rewrite filter_cons_False.
Qed.

Lemma filter_all (P : Node D -> Prop) `{!forall n, Decision (P n)} queue :
  Forall P queue -> filter P queue = queue.
Proof.
  induction 1 as [| n queue Hn _ IH]; [reflexivity |].
  rewrite filter_cons_True by exact Hn. now rewrite IH.
Qed.

(** Dropping the keys of a prefix of a queue with distinct keys leaves the
    rest of the queue. *)
Lemma remove_prefix (n : nat) queue :
  NoDup (keys queue) ->
  Helper.removeProcessedItemsFromQueue queue (take n queue) = drop n queue.
Proof.
  intros Hnd. rewrite removeProcessedItemsFromQueue_filter.
  rewrite <- (take_drop n queue) in Hnd. unfold keys in Hnd.
  rewrite fmap_app in Hnd. apply NoDup_app in Hnd as (_ & Hdisj & _).
  transitivity (filter (fun x => key x ∉ keys (take n queue))
                       (take n queue ++ drop n queue));
    [now rewrite take_drop |].
  rewrite filter_app, filter_none, filter_all; [reflexivity | |].
  - apply Forall_forall. intros x Hx Hin. apply (Hdisj (key x)); [exact Hin |].
    apply list_elem_of_fmap. now exists x.
  - apply Forall_forall. intros x Hx Hnot. apply Hnot.
    apply list_elem_of_fmap. now exists x.
Qed.

End HelperMore.



(** X9.  [setItemsInProgress] for any array it is handed: below the limit it
    appends nodes from the head of the queue until the length is the limit;
    at or above the limit the length after a push never equals the limit, so
    it appends the whole queue. *)
Theorem setItemsInProgress_any_start (D : Type)
    (queue items : list (Node D)) :
  (length items < constants.MAX_NODES_TO_QUEUE_PER_SEND ->
   Helper.setItemsInProgress queue items
   = items ++ take (constants.MAX_NODES_TO_QUEUE_PER_SEND - length items) queue)
  /\ (constants.MAX_NODES_TO_QUEUE_PER_SEND <= length items ->
      Helper.setItemsInProgress queue items = items ++ queue).
Proof.
  split; [apply setItemsInProgress_take |].
  revert items. induction queue as [| node queue IH]; intros items Hge;
    cbn [Helper.setItemsInProgress].
  - now rewrite app_nil_r.
  - destruct (Nat.eqb_spec (length (items ++ [node]))
                           constants.MAX_NODES_TO_QUEUE_PER_SEND) as [E | N].
    + rewrite length_app in E. cbn in E. lia.
    + rewrite IH by (rewrite length_app; cbn; lia).
      now rewrite <- app_assoc.
Qed.

Lemma setItemsInProgress_any_start_witness :
  Helper.setItemsInProgress [mkNode "k" 0%Z] [mkNode "a" 0%Z]
  = [mkNode "a" 0%Z] ++ take (constants.MAX_NODES_TO_QUEUE_PER_SEND - 1)
                             [mkNode "k" 0%Z]
  /\ Helper.setItemsInProgress [mkNode "k" 0%Z; mkNode "l" 0%Z]
       (replicate 10 (mkNode "a" 0%Z))
     = replicate 10 (mkNode "a" 0%Z) ++ [mkNode "k" 0%Z; mkNode "l" 0%Z].
Proof.
  split.
  - refine (proj1 (setItemsInProgress_any_start Z [mkNode "k" 0%Z]
                     [mkNode "a" 0%Z]) _).
    cbn. unfold constants.MAX_NODES_TO_QUEUE_PER_SEND. lia.
  - refine (proj2 (setItemsInProgress_any_start Z
                     [mkNode "k" 0%Z; mkNode "l" 0%Z]
                     (replicate 10 (mkNode "a" 0%Z))) _).
    cbn. unfold constants.MAX_NODES_TO_QUEUE_PER_SEND. lia.
Defined.

(** X10.  Removal of processed items: with nothing in progress the queue is
    unchanged; removing the same items again changes nothing more; a node
    appended to the queue stays, behind the others, exactly when its key is
    not a key in progress; and every node whose key is in progress goes,
    also one that was not itself in progress. *)
Theorem removal_edges (D : Type) (queue items : list (Node D)) (n : Node D) :
  Helper.removeProcessedItemsFromQueue queue [] = queue
  /\ Helper.removeProcessedItemsFromQueue
       (Helper.removeProcessedItemsFromQueue queue items) items
     = Helper.removeProcessedItemsFromQueue queue items
  /\ (key n ∉ keys items ->
      Helper.removeProcessedItemsFromQueue (queue ++ [n]) items
      = Helper.removeProcessedItemsFromQueue queue items ++ [n])
  /\ (key n ∈ keys items ->
      Helper.removeProcessedItemsFromQueue (queue ++ [n]) items
      = Helper.removeProcessedItemsFromQueue queue items
      /\ n ∉ Helper.removeProcessedItemsFromQueue (queue ++ [n]) items).
Proof.
  rewrite !removeProcessedItemsFromQueue_filter.
  split; [| split; [| split]].
  - apply filter_all, Forall_forall. intros x _. apply not_elem_of_nil.
  - apply filter_all, Forall_forall. intros x Hx.
    now apply list_elem_of_filter in Hx as [Hx _].
  - intros Hn. rewrite filter_app, filter_cons_True by exact Hn.
    now rewrite filter_nil.
  - intros Hn.
    rewrite filter_app, filter_cons_False by (intros H; exact (H Hn)).
    rewrite filter_nil, app_nil_r. split; [reflexivity |].
    intros Hin. now apply list_elem_of_filter in Hin as [Hin _].
Qed.

Lemma removal_edges_witness :
  Helper.removeProcessedItemsFromQueue
    ([mkNode "a" 1%Z; mkNode "b" 2%Z] ++ [mkNode "c" 3%Z]) [mkNode "a" 1%Z]
  = Helper.removeProcessedItemsFromQueue
      [mkNode "a" 1%Z; mkNode "b" 2%Z] [mkNode "a" 1%Z] ++ [mkNode "c" 3%Z]
  /\ mkNode "a" 9%Z
     ∉ Helper.removeProcessedItemsFromQueue
         ([mkNode "a" 1%Z; mkNode "b" 2%Z] ++ [mkNode "a" 9%Z])
         [mkNode "a" 1%Z].
Proof.
  split.
  - refine (proj1 (proj2 (proj2 (removal_edges Z
              [mkNode "a" 1%Z; mkNode "b" 2%Z] [mkNode "a" 1%Z]
              (mkNode "c" 3%Z)))) _).
    cbn. set_solver.
  - refine (proj2 (proj2 (proj2 (proj2 (removal_edges Z
              [mkNode "a" 1%Z; mkNode "b" 2%Z] [mkNode "a" 1%Z]
              (mkNode "a" 9%Z)))) _)).
    cbn. set_solver.
Defined.

(** ** The asset service after a response *)

Lemma processAssetData_start (s : AssetService.t) :
  AssetService.isOperationInProgress s = false ->
  AssetService.queue s <> [] ->
  AssetService.isOperationInProgress (fst (AssetService.processAssetData s))
  = true
  /\ AssetService.itemsInProgress (fst (AssetService.processAssetData s))
     = take constants.MAX_NODES_TO_QUEUE_PER_SEND (AssetService.queue s)
  /\ AssetService.totSent (fst (AssetService.processAssetData s))
     = AssetService.totSent s
  /\ snd (AssetService.processAssetData s)
     = [HttpPost (AssetService.token s)
          (AssetService.buildBody (fst (AssetService.processAssetData s)))].
Proof.
  intros Hidle Hne. unfold AssetService.processAssetData. rewrite Hidle.
  cbv zeta.
  cbn [AssetService.queue AssetService.itemsInProgress
       AssetService.set_itemsInProgress AssetService.set_isOperationInProgress].
  rewrite setItemsInProgress_empty.
  destruct (AssetService.queue s) as [| n q] eqn:Eq; [congruence |].
  change (take constants.MAX_NODES_TO_QUEUE_PER_SEND (n :: q))
    with (n :: take 9 q).
  cbn [length Nat.eqb fst snd AssetService.isOperationInProgress
       AssetService.itemsInProgress AssetService.totSent AssetService.token].
  repeat split.
Qed.

Lemma processAssetData_nothing (s : AssetService.t) :
  AssetService.isOperationInProgress s = false ->
  AssetService.queue s = [] ->
  AssetService.isOperationInProgress (fst (AssetService.processAssetData s))
  = false
  /\ snd (AssetService.processAssetData s) = [].
Proof.
  intros Hidle Hq. unfold AssetService.processAssetData. rewrite Hidle.
  cbv zeta.
  cbn [AssetService.queue AssetService.itemsInProgress
       AssetService.set_itemsInProgress AssetService.set_isOperationInProgress].
  rewrite Hq. cbn. split; reflexivity.
Qed.

Lemma countSent_step (k0 k : string) (m : gmap string AssetService.Counter) :
  AssetService.increment k0 (AssetService.initialise k0 m) !! k
  = if decide (k0 = k) then counted k (m !! k) else m !! k.
Proof.
  unfold AssetService.increment, AssetService.initialise, counted.
  destruct (decide (k0 = k)) as [<- | Hne].
  - destruct (m !! k0) as [[n |] |] eqn:E.
    + rewrite E. now rewrite lookup_insert_eq.
    + rewrite E. now rewrite lookup_insert_eq.
    + destruct (inherited k0).
      * rewrite E. destruct (String.eqb k0 "__proto__"); [exact E |].
        now rewrite lookup_insert_eq.
      * rewrite lookup_insert_eq, insert_insert_eq, lookup_insert_eq.
        reflexivity.
  - destruct (m !! k0) as [[n |] |] eqn:E.
    + rewrite E. now rewrite lookup_insert_ne by exact Hne.
    + rewrite E. now rewrite lookup_insert_ne by exact Hne.
    + destruct (inherited k0).
      * rewrite E. destruct (String.eqb k0 "__proto__"); [reflexivity |].
        now rewrite lookup_insert_ne by exact Hne.
      * rewrite lookup_insert_eq.
        now rewrite !lookup_insert_ne by exact Hne.
Qed.

(** The loop applies [counted] to the property of a key once for each node
    in progress with that key. *)
Lemma countSent_lookup (items : list (Node AssetData))
    (m : gmap string AssetService.Counter) (k : string) :
  AssetService.countSent items m !! k
  = Nat.iter (length (filter (fun n => a_key (data n) = k) items))
             (counted k) (m !! k).
Proof.
  unfold AssetService.countSent. revert m.
  induction items as [| n items IH]; intros m; [reflexivity |].
  cbn [fold_left]. rewrite IH, countSent_step. clear IH.
  destruct (decide (a_key (data n) = k)) as [E | N].
  - rewrite filter_cons_True by exact E. cbn [length].
    now rewrite Nat.iter_succ_r.
  - now rewrite filter_cons_False by exact N.
Qed.

Lemma counted_number (k : string) (c : nat) (n : Z) :
  Nat.iter c (counted k) (Some (AssetService.Count n))
  = Some (AssetService.Count (n + Z.of_nat c)).
Proof.
  induction c as [| c IH].
  - cbn. now rewrite Z.add_0_r.
  - rewrite Nat.iter_succ, IH. cbn [counted]. do 2 f_equal. lia.
Qed.

Lemma counted_NaN (k : string) (c : nat) :
  Nat.iter c (counted k) (Some AssetService.NaN) = Some AssetService.NaN.
Proof.
  induction c as [| c IH]; [reflexivity |].
  now rewrite Nat.iter_succ, IH.
Qed.

(** X11.  After the counting loop of a successful response, the counter of a
    key is as before when no node in progress has that key.  Otherwise a
    counter that is a number has grown by the number of nodes in progress
    with that key, and a missing counter of a key that names no member of
    Object.prototype is that number.  A key that names such a member and has
    no counter of its own is not counted: its counter becomes NaN, and
    '__proto__' gets none; a counter that is NaN stays NaN. *)
Theorem totSent_counts_per_key (items : list (Node AssetData))
    (m : gmap string AssetService.Counter) (k : string) :
  let c := length (filter (fun n => a_key (data n) = k) items) in
  (c = 0 -> AssetService.countSent items m !! k = m !! k)
  /\ (forall n, m !! k = Some (AssetService.Count n) ->
        AssetService.countSent items m !! k
        = Some (AssetService.Count (n + Z.of_nat c)))
  /\ (m !! k = None -> inherited k = false -> 0 < c ->
      AssetService.countSent items m !! k
      = Some (AssetService.Count (Z.of_nat c)))
  /\ (m !! k = None -> inherited k = true -> 0 < c ->
      AssetService.countSent items m !! k
      = if String.eqb k "__proto__" then None else Some AssetService.NaN)
  /\ (m !! k = Some AssetService.NaN ->
      AssetService.countSent items m !! k = Some AssetService.NaN).
Proof.
  intros c. subst c. rewrite countSent_lookup.
  generalize (length (filter (fun n => a_key (data n) = k) items)) as c.
  intros c. split; [| split; [| split; [| split]]].
  - intros ->. reflexivity.
  - intros n ->. apply counted_number.
  - intros -> Hk Hc. destruct c as [| c]; [lia |].
    rewrite Nat.iter_succ_r. cbn [counted]. rewrite Hk, counted_number.
    do 2 f_equal. lia.
  - intros -> Hk Hc. destruct c as [| c]; [lia |].
    rewrite Nat.iter_succ_r. cbn [counted]. rewrite Hk.
    destruct (String.eqb k "__proto__") eqn:Ep; [| apply counted_NaN].
    clear Hc. induction c as [| c IH]; [reflexivity |].
    rewrite Nat.iter_succ, IH. cbn [counted]. now rewrite Hk, Ep.
  - intros ->. apply counted_NaN.
Qed.

Lemma totSent_counts_per_key_witness :
  AssetService.countSent
    [mkNode "a" (mkAssetData "speed" 28 1 "m");
     mkNode "b" (mkAssetData "pressure" 22 1 "m");
     mkNode "c" (mkAssetData "speed" 29 2 "m")]
    {[ "speed" := AssetService.Count 5 ]} !! "speed"
  = Some (AssetService.Count 7)
  /\ AssetService.countSent
       [mkNode "a" (mkAssetData "speed" 28 1 "m");
        mkNode "b" (mkAssetData "pressure" 22 1 "m");
        mkNode "c" (mkAssetData "speed" 29 2 "m")]
       {[ "speed" := AssetService.Count 5 ]} !! "pressure"
     = Some (AssetService.Count 1)
  /\ AssetService.countSent
       [mkNode "a" (mkAssetData "constructor" 28 1 "m")] ∅ !! "constructor"
     = Some AssetService.NaN.
Proof.
  split; [| split].
  - refine (proj1 (proj2 (totSent_counts_per_key
                            [mkNode "a" (mkAssetData "speed" 28 1 "m");
                             mkNode "b" (mkAssetData "pressure" 22 1 "m");
                             mkNode "c" (mkAssetData "speed" 29 2 "m")]
                            {[ "speed" := AssetService.Count 5 ]} "speed"))
                  5%Z _).
    apply lookup_singleton_eq.
  - refine (proj1 (proj2 (proj2 (totSent_counts_per_key
                            [mkNode "a" (mkAssetData "speed" 28 1 "m");
                             mkNode "b" (mkAssetData "pressure" 22 1 "m");
                             mkNode "c" (mkAssetData "speed" 29 2 "m")]
                            {[ "speed" := AssetService.Count 5 ]} "pressure")))
                  _ _ _).
    + now apply lookup_singleton_ne.
    + reflexivity.
    + vm_compute. lia.
  - refine (proj1 (proj2 (proj2 (proj2 (totSent_counts_per_key
                            [mkNode "a" (mkAssetData "constructor" 28 1 "m")]
                            ∅ "constructor"))))
                  _ _ _).
    + apply lookup_empty.
    + reflexivity.
    + vm_compute. lia.
Defined.

(** The effect of a successful response on a service whose batch in
    progress is the head of its queue. *)
Lemma handlePostResponse_batch (s : AssetService.t) :
  NoDup (keys (AssetService.queue s)) ->
  AssetService.itemsInProgress s
  = take constants.MAX_NODES_TO_QUEUE_PER_SEND (AssetService.queue s) ->
  AssetService.token (fst (AssetService.handlePostResponse true s))
  = AssetService.token s
  /\ AssetService.queue (fst (AssetService.handlePostResponse true s))
  = drop constants.MAX_NODES_TO_QUEUE_PER_SEND (AssetService.queue s)
  /\ AssetService.totSent (fst (AssetService.handlePostResponse true s))
     = AssetService.countSent (AssetService.itemsInProgress s)
                              (AssetService.totSent s)
  /\ (drop constants.MAX_NODES_TO_QUEUE_PER_SEND (AssetService.queue s) = [] ->
      AssetService.isFinished (fst (AssetService.handlePostResponse true s))
      = true
      /\ snd (AssetService.handlePostResponse true s) = [])
  /\ (drop constants.MAX_NODES_TO_QUEUE_PER_SEND (AssetService.queue s) <> [] ->
      AssetService.isOperationInProgress
        (fst (AssetService.handlePostResponse true s)) = true
      /\ AssetService.itemsInProgress
           (fst (AssetService.handlePostResponse true s))
         = take constants.MAX_NODES_TO_QUEUE_PER_SEND
                (drop constants.MAX_NODES_TO_QUEUE_PER_SEND
                      (AssetService.queue s))
      /\ snd (AssetService.handlePostResponse true s)
         = [HttpPost (AssetService.token s)
              (AssetService.buildBody
                 (fst (AssetService.handlePostResponse true s)))]).
Proof.
  intros Hnd Hitems. unfold AssetService.handlePostResponse.
  cbn [negb]. cbv zeta.
  set (s3 := AssetService.set_isOperationInProgress false _).
  assert (Hq : AssetService.queue s3
               = drop constants.MAX_NODES_TO_QUEUE_PER_SEND
                      (AssetService.queue s)).
  { subst s3. cbn. rewrite Hitems. now apply remove_prefix. }
  assert (Hidle : AssetService.isOperationInProgress s3 = false) by reflexivity.
  assert (Htot : AssetService.totSent s3
                 = AssetService.countSent (AssetService.itemsInProgress s)
                                          (AssetService.totSent s))
    by reflexivity.
  assert (Htok : AssetService.token s3 = AssetService.token s) by reflexivity.
  clearbody s3. rewrite <- Hq.
  destruct (AssetService.queue s3) as [| n q] eqn:Eq.
  - cbn [length Nat.eqb negb fst snd].
    split; [exact Htok |].
    split; [exact Eq | split; [exact Htot | split]].
    + intros _. split; [| reflexivity].
      unfold AssetService.isFinished. now rewrite Eq, Hidle.
    + intros Hc. now destruct Hc.
  - cbn [length Nat.eqb negb].
    assert (Hne : AssetService.queue s3 <> []) by (rewrite Eq; discriminate).
    destruct (processAssetData_start s3 Hidle Hne) as (Hf & Hi & Ht & Hio).
    rewrite processAssetData_queue, Eq. rewrite Eq in Hi.
    split; [now rewrite processAssetData_token |].
    split; [reflexivity | split; [now rewrite Ht | split]].
    + discriminate.
    + intros _. split; [exact Hf | split; [exact Hi |]].
      now rewrite Hio, Htok.
Qed.


(** X12.  A successful response for the batch at the head of a queue with
    distinct keys removes exactly that batch: the queue becomes the nodes
    after the first MAX_NODES_TO_QUEUE_PER_SEND.  When none is left the
    service is finished and issues nothing; otherwise it is at once in
    progress again with the next batch, which it posts with its token. *)
Theorem asset_acknowledged_batch (s : AssetService.t) :
  NoDup (keys (AssetService.queue s)) ->
  AssetService.itemsInProgress s
  = take constants.MAX_NODES_TO_QUEUE_PER_SEND (AssetService.queue s) ->
  AssetService.queue (fst (AssetService.handlePostResponse true s))
  = drop constants.MAX_NODES_TO_QUEUE_PER_SEND (AssetService.queue s)
  /\ AssetService.totSent (fst (AssetService.handlePostResponse true s))
     = AssetService.countSent (AssetService.itemsInProgress s)
                              (AssetService.totSent s)
  /\ (drop constants.MAX_NODES_TO_QUEUE_PER_SEND (AssetService.queue s) = [] ->
      AssetService.isFinished (fst (AssetService.handlePostResponse true s))
      = true
      /\ snd (AssetService.handlePostResponse true s) = [])
  /\ (drop constants.MAX_NODES_TO_QUEUE_PER_SEND (AssetService.queue s) <> [] ->
      AssetService.isOperationInProgress
        (fst (AssetService.handlePostResponse true s)) = true
      /\ AssetService.itemsInProgress
           (fst (AssetService.handlePostResponse true s))
         = take constants.MAX_NODES_TO_QUEUE_PER_SEND
                (drop constants.MAX_NODES_TO_QUEUE_PER_SEND
                      (AssetService.queue s))
      /\ snd (AssetService.handlePostResponse true s)
         = [HttpPost (AssetService.token s)
              (AssetService.buildBody
                 (fst (AssetService.handlePostResponse true s)))]).
Proof.
  intros Hnd Hitems.
  exact (proj2 (handlePostResponse_batch s Hnd Hitems)).
Qed.

Lemma asset_acknowledged_batch_witness :
  AssetService.queue
    (fst (AssetService.handlePostResponse true
            (AssetService.mk
               [mkNode "a" (mkAssetData "speed" 28 1 "m");
                mkNode "b" (mkAssetData "speed" 29 200 "m")]
               true
               [mkNode "a" (mkAssetData "speed" 28 1 "m");
                mkNode "b" (mkAssetData "speed" 29 200 "m")]
               ∅ "t")))
  = [].
Proof.
  refine (proj1 (asset_acknowledged_batch
                   (AssetService.mk
                      [mkNode "a" (mkAssetData "speed" 28 1 "m");
                       mkNode "b" (mkAssetData "speed" 29 200 "m")]
                      true
                      [mkNode "a" (mkAssetData "speed" 28 1 "m");
                       mkNode "b" (mkAssetData "speed" 29 200 "m")]
                      ∅ "t") _ _)).
  - cbn. repeat (apply NoDup_cons; split; [set_solver |]). constructor.
  - reflexivity.
Defined.

(** ** The time series service: body, socket and acknowledgement *)

Lemma timeSeries_buildBody_map (s : TimeSeriesService.t) :
  TimeSeriesService.buildBody s
  = map (fun tag : string * string * string =>
           let '(name, units, details) := tag in
           mkSeries name
             (TimeSeriesService.datapointsOf name
                (TimeSeriesService.itemsInProgress s))
             units details)
        TimeSeriesService.tags.
Proof. reflexivity. Qed.

Lemma property_of_tag (name : string) (d : State) :
  In name (map (fun tag : string * string * string => fst (fst tag))
               TimeSeriesService.tags) ->
  is_Some (TimeSeriesService.property name d).
Proof.
  cbn. intros [<- | [<- | [<- | [<- | [<- | [<- | [<- | []]]]]]]];
    eexists; reflexivity.
Qed.

(** X14.  The body of a time series message has exactly one series per tag,
    in the order of [tags] and with the tag's attributes; no two tags are
    merged.  Every series has one data point per node in progress, in queue
    order, and the value of every data point is defined. *)
Theorem timeSeries_body_shape (s : TimeSeriesService.t) :
  map (fun e => (s_name e, s_units e, s_details e))
      (TimeSeriesService.buildBody s)
  = TimeSeriesService.tags
  /\ Forall (fun e =>
               map fst (s_datapoints e)
               = map (fun node => Math_round (time (data node) * 1000)%Q)
                     (TimeSeriesService.itemsInProgress s)
               /\ Forall (fun point => is_Some (snd point)) (s_datapoints e))
            (TimeSeriesService.buildBody s).
Proof.
  rewrite timeSeries_buildBody_map. split; [reflexivity |].
  assert (Hpoints : forall name,
             In name (map (fun tag : string * string * string => fst (fst tag))
                          TimeSeriesService.tags) ->
             map fst (TimeSeriesService.datapointsOf name
                        (TimeSeriesService.itemsInProgress s))
             = map (fun node => Math_round (time (data node) * 1000)%Q)
                   (TimeSeriesService.itemsInProgress s)
             /\ Forall (fun point => is_Some (snd point))
                       (TimeSeriesService.datapointsOf name
                          (TimeSeriesService.itemsInProgress s))).
  { intros name Hname. unfold TimeSeriesService.datapointsOf. split.
    - rewrite map_map. reflexivity.
    - apply Forall_forall. intros point Hpoint.
      apply list_elem_of_In, in_map_iff in Hpoint as (node & <- & _).
      now apply property_of_tag. }
  cbn [map TimeSeriesService.tags].
  repeat (constructor; [apply Hpoints; cbn; tauto |]). constructor.
Qed.

Lemma processTimeSeriesData_start (s : TimeSeriesService.t) :
  TimeSeriesService.isOperationInProgress s = false ->
  TimeSeriesService.queue s <> [] ->
  let r := TimeSeriesService.processTimeSeriesData s in
  TimeSeriesService.isOperationInProgress (fst r) = true
  /\ TimeSeriesService.itemsInProgress (fst r)
     = take constants.MAX_NODES_TO_QUEUE_PER_SEND (TimeSeriesService.queue s)
  /\ TimeSeriesService.totSent (fst r) = TimeSeriesService.totSent s
  /\ match TimeSeriesService.ws s with
     | TimeSeriesService.WsUndefined =>
         TimeSeriesService.ws (fst r)
         = TimeSeriesService.WsConnecting
             (TimeSeriesService.buildBody (fst r))
         /\ snd r = [WsConnect (TimeSeriesService.token s)]
     | TimeSeriesService.WsConnecting pending =>
         TimeSeriesService.ws (fst r) = TimeSeriesService.WsConnecting pending
         /\ snd r = []
     | TimeSeriesService.WsOpen =>
         TimeSeriesService.ws (fst r) = TimeSeriesService.WsOpen
         /\ snd r = [WsSend (TimeSeriesService.buildBody (fst r))]
     end.
Proof.
  intros Hidle Hne r. subst r.
  unfold TimeSeriesService.processTimeSeriesData. rewrite Hidle.
  cbv zeta.
  cbn [TimeSeriesService.queue TimeSeriesService.itemsInProgress
       TimeSeriesService.set_itemsInProgress
       TimeSeriesService.set_isOperationInProgress].
  rewrite setItemsInProgress_empty.
  destruct (TimeSeriesService.queue s) as [| n q] eqn:Eq; [congruence |].
  change (take constants.MAX_NODES_TO_QUEUE_PER_SEND (n :: q))
    with (n :: take 9 q).
  cbn [length Nat.eqb].
  set (s' := TimeSeriesService.set_itemsInProgress (n :: take 9 q) _).
  change (TimeSeriesService.ws s') with (TimeSeriesService.ws s).
  destruct (TimeSeriesService.ws s) eqn:Ews; repeat split;
    try reflexivity; exact Ews.
Qed.

(** X15.  An acknowledgement for the batch at the head of a queue with
    distinct keys, on the open socket: the total grows by the size of the
    batch and the queue loses exactly the batch.  When nodes are left, the
    next batch is sent at once on the same socket; when none is left, the
    socket is closed and forgotten and the service is finished. *)
Theorem timeSeries_acknowledged_batch (s : TimeSeriesService.t) :
  NoDup (keys (TimeSeriesService.queue s)) ->
  TimeSeriesService.itemsInProgress s
  = take constants.MAX_NODES_TO_QUEUE_PER_SEND (TimeSeriesService.queue s) ->
  TimeSeriesService.ws s = TimeSeriesService.WsOpen ->
  let r := TimeSeriesService.onmessage s in
  TimeSeriesService.queue (fst r)
  = drop constants.MAX_NODES_TO_QUEUE_PER_SEND (TimeSeriesService.queue s)
  /\ TimeSeriesService.totSent (fst r)
     = (TimeSeriesService.totSent s
        + Z.of_nat (Nat.min constants.MAX_NODES_TO_QUEUE_PER_SEND
                            (length (TimeSeriesService.queue s))))%Z
  /\ (drop constants.MAX_NODES_TO_QUEUE_PER_SEND (TimeSeriesService.queue s)
      = [] ->
      TimeSeriesService.isFinished (fst r) = true
      /\ TimeSeriesService.ws (fst r) = TimeSeriesService.WsUndefined
      /\ snd r = [WsClose])
  /\ (drop constants.MAX_NODES_TO_QUEUE_PER_SEND (TimeSeriesService.queue s)
      <> [] ->
      TimeSeriesService.isOperationInProgress (fst r) = true
      /\ TimeSeriesService.itemsInProgress (fst r)
         = take constants.MAX_NODES_TO_QUEUE_PER_SEND
                (drop constants.MAX_NODES_TO_QUEUE_PER_SEND
                      (TimeSeriesService.queue s))
      /\ TimeSeriesService.ws (fst r) = TimeSeriesService.WsOpen
      /\ snd r = [WsSend (TimeSeriesService.buildBody (fst r))]).
Proof.
  intros Hnd Hitems Hws r. subst r. unfold TimeSeriesService.onmessage.
  cbv zeta.
  set (s3 := TimeSeriesService.set_isOperationInProgress false _).
  assert (Hq : TimeSeriesService.queue s3
               = drop constants.MAX_NODES_TO_QUEUE_PER_SEND
                      (TimeSeriesService.queue s)).
  { subst s3. cbn. rewrite Hitems. now apply remove_prefix. }
  assert (Hidle : TimeSeriesService.isOperationInProgress s3 = false)
    by reflexivity.
  assert (Htot : TimeSeriesService.totSent s3
                 = (TimeSeriesService.totSent s
                    + Z.of_nat (Nat.min constants.MAX_NODES_TO_QUEUE_PER_SEND
                                  (length (TimeSeriesService.queue s))))%Z).
  { subst s3. cbn. now rewrite Hitems, length_take. }
  assert (Hws3 : TimeSeriesService.ws s3 = TimeSeriesService.WsOpen)
    by exact Hws.
  clearbody s3. rewrite <- Hq.
  destruct (TimeSeriesService.queue s3) as [| n q] eqn:Eq.
  - cbn [length Nat.eqb negb fst snd].
    split; [exact Eq | split; [exact Htot | split]].
    + intros _. repeat split.
      unfold TimeSeriesService.isFinished. cbn. now rewrite Eq, Hidle.
    + intros Hc. now destruct Hc.
  - cbn [length Nat.eqb negb].
    assert (Hne : TimeSeriesService.queue s3 <> []) by (rewrite Eq; discriminate).
    pose proof (processTimeSeriesData_start s3 Hidle Hne) as Hstart.
    cbv zeta in Hstart. rewrite Hws3 in Hstart.
    destruct Hstart as (Hf & Hi & Ht & Hw & Hio).
    rewrite processTimeSeriesData_queue, Eq. rewrite Eq in Hi.
    split; [reflexivity | split; [now rewrite Ht | split]].
    + discriminate.
    + intros _. auto.
Qed.

Lemma timeSeries_acknowledged_batch_witness :
  TimeSeriesService.queue
    (fst (TimeSeriesService.onmessage
            (TimeSeriesService.mk
               [mkNode "a" initialState; mkNode "b" initialState]
               true TimeSeriesService.WsOpen
               [mkNode "a" initialState; mkNode "b" initialState]
               0 "t")))
  = [].
Proof.
  refine (proj1 (timeSeries_acknowledged_batch
                   (TimeSeriesService.mk
                      [mkNode "a" initialState; mkNode "b" initialState]
                      true TimeSeriesService.WsOpen
                      [mkNode "a" initialState; mkNode "b" initialState]
                      0 "t") _ _ _)).
  - cbn. repeat (apply NoDup_cons; split; [set_solver |]). constructor.
  - reflexivity.
  - reflexivity.
Defined.

(** X16.  The socket is opened lazily and used once it is open: a drain that
    starts idle with a non-empty queue and no socket requests a connection
    with the current token and sends nothing yet; the 'open' event then
    sends exactly the body of that batch, once, a further 'open' sending
    nothing. *)
Theorem timeSeries_connects_then_sends (s : TimeSeriesService.t) :
  TimeSeriesService.isOperationInProgress s = false ->
  TimeSeriesService.queue s <> [] ->
  TimeSeriesService.ws s = TimeSeriesService.WsUndefined ->
  let drained := TimeSeriesService.processTimeSeriesData s in
  let opened := TimeSeriesService.onopen (fst drained) in
  snd drained = [WsConnect (TimeSeriesService.token s)]
  /\ TimeSeriesService.itemsInProgress (fst drained)
     = take constants.MAX_NODES_TO_QUEUE_PER_SEND (TimeSeriesService.queue s)
  /\ snd opened = [WsSend (TimeSeriesService.buildBody (fst drained))]
  /\ TimeSeriesService.ws (fst opened) = TimeSeriesService.WsOpen
  /\ TimeSeriesService.isOperationInProgress (fst opened) = true
  /\ TimeSeriesService.onopen (fst opened) = (fst opened, []).
Proof.
  intros Hidle Hne Hws drained opened. subst opened drained.
  pose proof (processTimeSeriesData_start s Hidle Hne) as Hstart.
  cbv zeta in Hstart. rewrite Hws in Hstart.
  destruct Hstart as (Hf & Hi & _ & Hw & Hio).
  set (d := fst (TimeSeriesService.processTimeSeriesData s)) in *.
  assert (Hopen : TimeSeriesService.onopen d
                  = (TimeSeriesService.set_ws TimeSeriesService.WsOpen d,
                     [WsSend (TimeSeriesService.buildBody d)])).
  { unfold TimeSeriesService.onopen. now rewrite Hw. }
  rewrite Hopen. cbn [fst snd].
  repeat split; assumption.
Qed.

Lemma timeSeries_connects_then_sends_witness :
  snd (TimeSeriesService.processTimeSeriesData
         (TimeSeriesService.set_queue [mkNode "a" initialState]
            (TimeSeriesService.new "t")))
  = [WsConnect "t"].
Proof.
  refine (proj1 (timeSeries_connects_then_sends
                   (TimeSeriesService.set_queue [mkNode "a" initialState]
                      (TimeSeriesService.new "t")) _ _ _));
    [reflexivity | discriminate | reflexivity].
Defined.

(** ** What is queued stems from the simulation *)

Lemma genuineAlert_mono (n m : nat) (d : AssetData) :
  n <= m -> genuineAlert n d -> genuineAlert m d.
Proof. intros Hle (j & Hj & H). exists j. split; [lia | exact H]. Qed.

Lemma genuineSample_mono (n m : nat) (d : State) :
  n <= m -> genuineSample n d -> genuineSample m d.
Proof. intros Hle (j & Hj & H). exists j. split; [lia | exact H]. Qed.

Lemma Forall_subset {A : Type} (P : A -> Prop) (l l' : list A) :
  (forall x, x ∈ l' -> x ∈ l) -> Forall P l -> Forall P l'.
Proof.
  rewrite !Forall_forall. intros Hsub H x Hx. apply H, Hsub, Hx.
Qed.

Lemma removeProcessed_subset {D : Type} (queue items : list (Node D))
    (x : Node D) :
  x ∈ Helper.removeProcessedItemsFromQueue queue items -> x ∈ queue.
Proof.
  rewrite removeProcessedItemsFromQueue_filter.
  intros H. now apply list_elem_of_filter in H as [_ H].
Qed.

Lemma handlePostResponse_subset (ok : bool) (s : AssetService.t)
    (x : Node AssetData) :
  x ∈ AssetService.queue (fst (AssetService.handlePostResponse ok s)) ->
  x ∈ AssetService.queue s.
Proof.
  unfold AssetService.handlePostResponse.
  destruct ok; cbn [negb]; [| intros H; exact H].
  cbv zeta. destruct (negb _).
  - rewrite processAssetData_queue. cbn. apply removeProcessed_subset.
  - cbn. apply removeProcessed_subset.
Qed.

Lemma onmessage_subset (s : TimeSeriesService.t) (x : Node State) :
  x ∈ TimeSeriesService.queue (fst (TimeSeriesService.onmessage s)) ->
  x ∈ TimeSeriesService.queue s.
Proof.
  unfold TimeSeriesService.onmessage. cbv zeta. destruct (negb _).
  - rewrite processTimeSeriesData_queue. cbn. apply removeProcessed_subset.
  - cbn. apply removeProcessed_subset.
Qed.

(** A callback of the network never adds to a queue and leaves the
    simulator's own variables alone. *)
Lemma network_step_frame (e : Event) (w w' : World) :
  (forall reply, e <> EvRunSimulation reply) ->
  step e w = Some w' ->
  state w' = state w /\ history w' = history w
  /\ numIterations w' = numIterations w
  /\ (forall x, x ∈ AssetService.queue (assetService (services w')) ->
                x ∈ AssetService.queue (assetService (services w)))
  /\ (forall x, x ∈ TimeSeriesService.queue (timeSeriesService (services w')) ->
                x ∈ TimeSeriesService.queue (timeSeriesService (services w))).
Proof.
  intros Hnet.
  destruct e; [now destruct (Hnet reply) | ..];
    cbn [step]; unfold onServices; intros [= <-];
    (split; [reflexivity | split; [reflexivity | split; [reflexivity |]]]);
    cbn; (split; intros x Hx); try exact Hx.
  - now apply handlePostResponse_subset in Hx.
  - unfold AssetService.retryResume in Hx.
    now rewrite processAssetData_queue in Hx.
  - unfold TimeSeriesService.onopen in Hx.
    now destruct (TimeSeriesService.ws _).
  - now destruct (TimeSeriesService.ws _).
  - destruct (TimeSeriesService.ws _); try exact Hx.
    now apply onmessage_subset in Hx.
  - now destruct (TimeSeriesService.ws _).
  - now destruct (TimeSeriesService.ws _).
  - unfold TimeSeriesService.retryResume in Hx.
    now rewrite processTimeSeriesData_queue in Hx.
Qed.

Lemma recordSend_keys (key key' : string) (now : Q)
    (history : gmap string HistoryEntry) :
  is_Some (recordSend key now history !! key') ->
  key' = key \/ is_Some (history !! key').
Proof.
  unfold recordSend. destruct (decide (key = key')) as [<- | Hne];
    [now left |].
  rewrite lookup_insert_ne by exact Hne. now right.
Qed.

Lemma toTimeSeries_trajectory (w w' : World) :
  (1 <= numIterations w)%Z -> trajectory w ->
  toTimeSeries (state w) w = Some w' ->
  trajectory w' /\ numIterations w' = numIterations w.
Proof.
  intros Hn (Hn0 & Hst & Hasset & Hts & Hkeys). unfold toTimeSeries.
  destruct (model.sendDataToPredix _ _ _ _ _ _) as [[h k] |] eqn:E;
    [| discriminate].
  cbn. intros [= <-]. split; [| reflexivity].
  destruct (sendDataToPredix_outcome _ _ _ _ _ _ _ _ E)
    as [[-> ->] | (Hsend & -> & _)].
  - repeat split; assumption.
  - destruct (timeSeries_sendDataToPredix_Some _ _ _ Hsend)
      as (id & Hq & Has & _).
    split; [exact Hn0 | split; [exact Hst | split; [| split]]]; cbn.
    + now rewrite Has.
    + rewrite Hq. apply Forall_app. split; [exact Hts |].
      constructor; [| constructor]. cbn.
      exists (Z.to_nat (numIterations w)). split; [lia | exact Hst].
    + intros key Hk. apply recordSend_keys in Hk as [-> | Hk];
        [| exact (Hkeys key Hk)].
      unfold sampledKeys. set_solver.
Qed.

Lemma toAsset_trajectory (key : string) (val : Q) (msg : string)
    (w w' : World) :
  (1 <= numIterations w)%Z -> trajectory w ->
  alertRaised (state w) key val ->
  toAsset key val msg w = Some w' ->
  trajectory w' /\ numIterations w' = numIterations w.
Proof.
  intros Hn (Hn0 & Hst & Hasset & Hts & Hkeys) Halert. unfold toAsset.
  destruct (model.sendDataToPredix _ _ _ _ _ _) as [[h k] |] eqn:E;
    [| discriminate].
  cbn. intros [= <-]. split; [| reflexivity].
  destruct (sendDataToPredix_outcome _ _ _ _ _ _ _ _ E)
    as [[-> ->] | (Hsend & -> & _)].
  - repeat split; assumption.
  - destruct (asset_sendDataToPredix_Some _ _ _ Hsend)
      as (id & Hq & Htsq & _).
    split; [exact Hn0 | split; [exact Hst | split; [| split]]]; cbn.
    + rewrite Hq. apply Forall_app. split; [exact Hasset |].
      constructor; [| constructor]. cbn.
      exists (Z.to_nat (numIterations w)). split; [lia |].
      rewrite <- Hst. split; [exact Halert | reflexivity].
    + now rewrite Htsq.
    + intros key' Hk. apply recordSend_keys in Hk as [-> | Hk];
        [| exact (Hkeys key' Hk)].
      unfold sampledKeys.
      destruct Halert as [(-> & _) | [(-> & _) | (-> & _)]]; set_solver.
Qed.

Lemma runSimulation_trajectory (reply : UaaResult) (w w' : World) :
  trajectory w -> runSimulation reply w = Some w' -> trajectory w'.
Proof.
  intros Htr. unfold runSimulation.
  set (w0 := if (numIterations w =? 0)%Z then _ else w).
  assert (H0 : trajectory w0).
  { subst w0. destruct (numIterations w =? 0)%Z; [| exact Htr].
    destruct Htr as (Hn0 & Hst & _ & _ & Hkeys).
    split; [exact Hn0 | split; [exact Hst | split; [| split]]]; cbn;
      [constructor | constructor | exact Hkeys]. }
  clearbody w0. clear Htr.
  destruct (Z.leb_spec constants.NUM_ITERATIONS (numIterations w0));
    [intros [= <-]; exact H0 |].
  intros Hrun.
  refine (proj1 (notifyAll_rel
             (fun a b => (1 <= numIterations a)%Z -> trajectory a ->
                         trajectory b /\ numIterations b = numIterations a)
             _ _ _ _ _ _ Hrun _ _)).
  - intros a _ Ha. split; [exact Ha | reflexivity].
  - intros a b c Hab Hbc Hn Ha. destruct (Hab Hn Ha) as [Hb Hnb].
    destruct (Hbc ltac:(lia) Hb) as [Hc Hnc]. split; [exact Hc | lia].
  - intros a b Hsend Hn Ha. exact (toTimeSeries_trajectory a b Hn Ha Hsend).
  - intros key val msg a b Halert Hsend Hn Ha.
    exact (toAsset_trajectory key val msg a b Hn Ha Halert Hsend).
  - destruct H0 as (Hn0 & _). cbn. lia.
  - destruct H0 as (Hn0 & Hst & Hasset & Hts & Hkeys).
    assert (Hsucc : Z.to_nat (numIterations w0 + 1)
                    = S (Z.to_nat (numIterations w0))) by lia.
    split; [cbn; lia | split; [| split; [| split]]]; cbn; rewrite ?Hsucc.
    + rewrite iterate_succ_r. now rewrite <- Hst.
    + eapply Forall_impl; [exact Hasset |].
      intros node. apply genuineAlert_mono. lia.
    + eapply Forall_impl; [exact Hts |].
      intros node. apply genuineSample_mono. lia.
    + exact Hkeys.
Qed.

Lemma step_trajectory (e : Event) (w w' : World) :
  trajectory w -> step e w = Some w' -> trajectory w'.
Proof.
  intros Htr Hstep.
  destruct (match e with EvRunSimulation _ => true | _ => false end) eqn:Ee.
  - destruct e; try discriminate. exact (runSimulation_trajectory _ _ _ Htr Hstep).
  - destruct (network_step_frame e w w') as (Hs & Hh & Hn & Hqa & Hqt);
      [intros reply ->; discriminate | exact Hstep |].
    destruct Htr as (Hn0 & Hst & Hasset & Hts & Hkeys).
    unfold trajectory. rewrite Hs, Hh, Hn.
    repeat split; try assumption.
    + exact (Forall_subset _ _ _ Hqa Hasset).
    + exact (Forall_subset _ _ _ Hqt Hts).
Qed.

Lemma run_trajectory (ids : list string) (es : list Event) (w : World) :
  run es (initialWorld ids) = Some w -> trajectory w.
Proof.
  assert (Hgen : forall w0, trajectory w0 -> run es w0 = Some w -> trajectory w).
  { induction es as [| e es IH]; intros w0 H0; cbn.
    - now intros [= <-].
    - destruct (step e w0) as [w1 |] eqn:E; [| discriminate]. cbn.
      apply IH. exact (step_trajectory _ _ _ H0 E). }
  apply Hgen. unfold trajectory; cbn.
  split; [lia | split; [reflexivity | split; [constructor | split]]];
    [constructor |].
  intros key [h Hh]. now rewrite lookup_empty in Hh.
Qed.

(** X17.  Whatever waits in the queues stems from the simulation: in every
    run, each alert in the queue of the asset service carries the key, the
    value and the time of the state after one of the ticks made so far, and
    that value lies beyond the threshold of its key; each node in the queue
    of the time series service is the state after one of those ticks. *)
Theorem queued_data_is_genuine (ids : list string) (es : list Event)
    (w : World) :
  run es (initialWorld ids) = Some w ->
  Forall (fun node => genuineAlert (Z.to_nat (numIterations w)) (data node))
         (AssetService.queue (assetService (services w)))
  /\ Forall (fun node => genuineSample (Z.to_nat (numIterations w)) (data node))
            (TimeSeriesService.queue (timeSeriesService (services w))).
Proof.
  intros Hrun. destruct (run_trajectory _ _ _ Hrun) as (_ & _ & Ha & Ht & _).
  split; assumption.
Qed.

Lemma queued_data_is_genuine_witness :
  exists w,
    run [EvRunSimulation (UaaGranted "token")] (initialWorld ["id-1"]) = Some w
    /\ Forall (fun node => genuineSample (Z.to_nat (numIterations w)) (data node))
              (TimeSeriesService.queue (timeSeriesService (services w))).
Proof.
  destruct (run [EvRunSimulation (UaaGranted "token")] (initialWorld ["id-1"]))
    as [w |] eqn:E.
  - exists w. split; [reflexivity |].
    exact (proj2 (queued_data_is_genuine _ _ _ E)).
  - vm_compute in E. discriminate E.
Defined.

(** X18.  In every run the history has entries only for the four keys the
    simulator samples; every entry counts at least one send and was sent no
    later than the current simulated time, so the time since the last send
    is never the -1 that marks a key without history. *)
Theorem history_in_runs (ids : list string) (es : list Event) (w : World) :
  run es (initialWorld ids) = Some w ->
  forall key h, history w !! key = Some h ->
    key ∈ sampledKeys
    /\ (1 <= numSends h)%Z
    /\ (prevTimeSent h <= time (state w))%Q
    /\ ~ (time (state w) - prevTimeSent h == -1)%Q.
Proof.
  intros Hrun key h Hh.
  destruct (run_trajectory _ _ _ Hrun) as (_ & _ & _ & _ & Hkeys).
  pose proof (run_historyInvariant _ _ _ Hrun) as Hinv.
  destruct (Hinv key h Hh) as [[Hn _] Hp].
  repeat split; try assumption.
  - apply Hkeys. now exists h.
  - exact (historyInvariant_no_sentinel key _ _ Hinv h Hh).
Qed.

Lemma history_in_runs_witness :
  exists w h,
    run [EvRunSimulation (UaaGranted "token")] (initialWorld ["id-1"]) = Some w
    /\ history w !! "timeSeries" = Some h
    /\ (1 <= numSends h)%Z.
Proof.
  destruct (run [EvRunSimulation (UaaGranted "token")] (initialWorld ["id-1"]))
    as [w |] eqn:E; [| vm_compute in E; discriminate E].
  destruct (history w !! "timeSeries") as [h |] eqn:Eh.
  - exists w, h. split; [reflexivity | split; [exact Eh |]].
    exact (proj1 (proj2 (history_in_runs _ _ _ E _ _ Eh))).
  - exfalso. vm_compute in E. injection E as <-.
    vm_compute in Eh. discriminate Eh.
Defined.

(** ** New data while a transmission is pending or has failed *)

(** X13.  While an operation is in progress a new node is only appended:
    neither service issues I/O or touches the batch in progress.  A failed
    POST clears the flag of the asset service at once, so the next alert
    that arrives is posted immediately, with the head of the queue and the
    old token, before the retry timer has fired.  A socket error leaves the
    flag of the time series service as it is, so that service sends nothing
    for new data until the timer callback runs. *)
Theorem new_data_during_flight_and_backoff :
  (forall (s : AssetService.t) (id : string) (d : AssetData),
      AssetService.isOperationInProgress s = true ->
      AssetService.enqueue id d s
      = (AssetService.set_queue (AssetService.queue s ++ [mkNode id d]) s, []))
  /\ (forall (s : TimeSeriesService.t) (id : string) (d : State),
        TimeSeriesService.isOperationInProgress s = true ->
        TimeSeriesService.enqueue id d s
        = (TimeSeriesService.set_queue
             (TimeSeriesService.queue s ++ [mkNode id d]) s, []))
  /\ (forall (s : AssetService.t) (id : string) (d : AssetData),
        let failed := fst (AssetService.handlePostResponse false s) in
        let r := AssetService.enqueue id d failed in
        AssetService.itemsInProgress (fst r)
        = take constants.MAX_NODES_TO_QUEUE_PER_SEND
               (AssetService.queue s ++ [mkNode id d])
        /\ snd r = [HttpPost (AssetService.token s)
                      (AssetService.buildBody (fst r))])
  /\ (forall (s : TimeSeriesService.t) (id : string) (d : State),
        TimeSeriesService.isOperationInProgress s = true ->
        let failed := fst (TimeSeriesService.onerror s) in
        let r := TimeSeriesService.enqueue id d failed in
        snd r = []
        /\ TimeSeriesService.isOperationInProgress (fst r) = true
        /\ TimeSeriesService.itemsInProgress (fst r)
           = TimeSeriesService.itemsInProgress s
        /\ TimeSeriesService.queue (fst r)
           = TimeSeriesService.queue s ++ [mkNode id d]).
Proof.
  split; [| split; [| split]].
  - intros s id d H. unfold AssetService.enqueue, AssetService.processAssetData.
    cbn [AssetService.isOperationInProgress AssetService.set_queue].
    now rewrite H.
  - intros s id d H.
    unfold TimeSeriesService.enqueue, TimeSeriesService.processTimeSeriesData.
    cbn [TimeSeriesService.isOperationInProgress TimeSeriesService.set_queue].
    now rewrite H.
  - intros s id d failed r. subst r failed. unfold AssetService.enqueue.
    set (s1 := AssetService.set_queue _ _).
    assert (Hidle : AssetService.isOperationInProgress s1 = false)
      by reflexivity.
    assert (Hne : AssetService.queue s1 <> []).
    { subst s1. cbn. intros H. now apply app_eq_nil in H as [_ H]. }
    destruct (processAssetData_start s1 Hidle Hne) as (_ & Hi & _ & Hio).
    split; [exact Hi | exact Hio].
  - intros s id d H failed r. subst r failed.
    unfold TimeSeriesService.enqueue, TimeSeriesService.processTimeSeriesData.
    cbn [TimeSeriesService.isOperationInProgress TimeSeriesService.set_queue
         TimeSeriesService.onerror TimeSeriesService.set_ws fst].
    rewrite H. repeat split. exact H.
Qed.

Lemma new_data_during_flight_and_backoff_witness :
  AssetService.enqueue "b" (mkAssetData "speed" 28 1 "m")
    (AssetService.mk [mkNode "a" (mkAssetData "speed" 28 1 "m")] true
                     [mkNode "a" (mkAssetData "speed" 28 1 "m")] ∅ "t")
  = (AssetService.set_queue
       ([mkNode "a" (mkAssetData "speed" 28 1 "m")]
        ++ [mkNode "b" (mkAssetData "speed" 28 1 "m")])
       (AssetService.mk [mkNode "a" (mkAssetData "speed" 28 1 "m")] true
                        [mkNode "a" (mkAssetData "speed" 28 1 "m")] ∅ "t"),
     [])
  /\ snd (TimeSeriesService.enqueue "b" initialState
            (fst (TimeSeriesService.onerror
                    (TimeSeriesService.mk [mkNode "a" initialState] true
                       TimeSeriesService.WsOpen [mkNode "a" initialState]
                       0 "t"))))
     = [].
Proof.
  destruct new_data_during_flight_and_backoff as (Hasset & _ & _ & Hts).
  split.
  - apply Hasset. reflexivity.
  - apply (Hts (TimeSeriesService.mk [mkNode "a" initialState] true
                  TimeSeriesService.WsOpen [mkNode "a" initialState] 0 "t")).
    reflexivity.
Defined.

(** ** Sends of a key are spaced *)

Lemma sendDataToPredix_fires {D S : Type} (key : string) (data : D)
    (sendData : D -> S -> option S) (now : Q)
    (history history' : gmap string HistoryEntry) (sink sink' : S) :
  model.sendDataToPredix key data sendData now history sink
  = Some (history', sink') ->
  history' = history
  \/ (history' = recordSend key now history
      /\ match history !! key with
         | None => True
         | Some old =>
             (now - prevTimeSent old == -1)%Q
             \/ (constants.SEND_INTERVAL
                 <= now - prevTimeSent old + constants.EPS)%Q
         end).
Proof.
  rewrite sendDataToPredix_test.
  destruct (model.inheritedMember key history); cbn [negb andb];
    [intros [= <- <-]; now left |].
  destruct ((sendsSoFar key history <? constants.MAX_NUM_SENDS_PER_KEY)%Z);
    cbn [andb]; [| intros [= <- <-]; now left].
  destruct (history !! key) as [old |] eqn:Hold.
  - destruct (Qeq_bool (now - prevTimeSent old) (-1)) eqn:Eeq; cbn [orb].
    + destruct (sendData data sink); cbn; [| discriminate].
      intros [= <- <-]. right. split; [reflexivity |]. left.
      now apply Qeq_bool_iff.
    + destruct (Qle_bool _ _) eqn:Ele; [| intros [= <- <-]; now left].
      destruct (sendData data sink); cbn; [| discriminate].
      intros [= <- <-]. right. split; [reflexivity |]. right.
      now apply Qle_bool_iff.
  - destruct (sendData data sink); cbn; [| discriminate].
    intros [= <- <-]. right. split; reflexivity.
Qed.

(** Within one notification the entry of a key changes at most once: after a
    send at the current time the gate is closed for that key. *)
Lemma notifyAll_entry (k : string) (w w' : World) :
  notifyAll onStateChange w = Some w' ->
  state w' = state w
  /\ (history w' !! k = history w !! k
      \/ (history w' !! k
          = Some {| prevTimeSent := time (state w);
                    numSends := (sendsSoFar k (history w) + 1)%Z |}
          /\ match history w !! k with
             | None => True
             | Some old =>
                 (time (state w) - prevTimeSent old == -1)%Q
                 \/ (constants.SEND_INTERVAL
                     <= time (state w) - prevTimeSent old + constants.EPS)%Q
             end)).
Proof.
  assert (Hsender : forall (D : Type) key (d : D) send a h' k',
             model.sendDataToPredix key d send (time (state a)) (history a)
               (services a) = Some (h', k') ->
             h' !! k = history a !! k
             \/ (h' !! k
                 = Some {| prevTimeSent := time (state a);
                           numSends := (sendsSoFar k (history a) + 1)%Z |}
                 /\ match history a !! k with
                    | None => True
                    | Some old =>
                        (time (state a) - prevTimeSent old == -1)%Q
                        \/ (constants.SEND_INTERVAL
                            <= time (state a) - prevTimeSent old
                               + constants.EPS)%Q
                    end)).
  { intros D key d send a h' k' E.
    destruct (sendDataToPredix_fires _ _ _ _ _ _ _ _ E) as [-> | [-> Hgate]];
      [now left |].
    unfold recordSend. destruct (decide (key = k)) as [<- | Hne].
    - right. rewrite lookup_insert_eq. split; [reflexivity | exact Hgate].
    - left. now rewrite lookup_insert_ne by exact Hne. }
  apply (notifyAll_rel
           (fun a b =>
              state b = state a
              /\ (history b !! k = history a !! k
                  \/ (history b !! k
                      = Some {| prevTimeSent := time (state a);
                                numSends := (sendsSoFar k (history a) + 1)%Z |}
                      /\ match history a !! k with
                         | None => True
                         | Some old =>
                             (time (state a) - prevTimeSent old == -1)%Q
                             \/ (constants.SEND_INTERVAL
                                 <= time (state a) - prevTimeSent old
                                    + constants.EPS)%Q
                         end)))).
  - intros a. split; [reflexivity | now left].
  - intros a b c [Hsab Hab] [Hsbc Hbc]. split; [congruence |].
    destruct Hbc as [Hbc | [Hbc Hgate]].
    + rewrite Hbc. exact Hab.
    + destruct Hab as [Hab | [Hab _]].
      * right. rewrite Hbc. unfold sendsSoFar. rewrite Hab, Hsab.
        split; [reflexivity |]. rewrite Hab, Hsab in Hgate. exact Hgate.
      * exfalso. rewrite Hab, Hsab in Hgate. cbn in Hgate.
        unfold_constants. destruct Hgate; lra.
  - intros a b. unfold toTimeSeries.
    destruct (model.sendDataToPredix _ _ _ _ _ _) as [[h' k'] |] eqn:E;
      [| discriminate].
    cbn. intros [= <-]. split; [reflexivity |]. cbn.
    exact (Hsender _ _ _ _ _ _ _ E).
  - intros key val msg a b _. unfold toAsset.
    destruct (model.sendDataToPredix _ _ _ _ _ _) as [[h' k'] |] eqn:E;
      [| discriminate].
    cbn. intros [= <-]. split; [reflexivity |]. cbn.
    exact (Hsender _ _ _ _ _ _ _ E).
Qed.

(** X19.  Sends of a key are spaced: at every step of every run the history
    entry of a key is either kept or records exactly one more send, made at
    the simulated time the step ends at; and for a key that had been sent
    before, that time is at least SEND_INTERVAL - EPS after the previous
    send.  An entry never disappears. *)
Theorem sends_are_spaced (ids : list string) (es : list Event) (e : Event)
    (w w' : World) (key : string) :
  run es (initialWorld ids) = Some w ->
  step e w = Some w' ->
  entryFollows (time (state w')) (history w !! key) (history w' !! key).
Proof.
  intros Hrun Hstep.
  assert (Hkeep : history w' !! key = history w !! key ->
                  entryFollows (time (state w')) (history w !! key)
                               (history w' !! key)).
  { intros ->. unfold entryFollows.
    destruct (history w !! key); [now left | exact I]. }
  destruct (match e with EvRunSimulation _ => true | _ => false end) eqn:Ee.
  2:{ destruct (network_step_frame e w w') as (_ & Hh & _);
        [intros reply ->; discriminate | exact Hstep |].
      apply Hkeep. now rewrite Hh. }
  destruct e; try discriminate. cbn [step] in Hstep.
  pose proof (run_historyInvariant _ _ _ Hrun) as Hinv.
  unfold runSimulation in Hstep.
  set (w0 := if (numIterations w =? 0)%Z then _ else w) in Hstep.
  assert (H0 : history w0 = history w /\ state w0 = state w).
  { subst w0. destruct (numIterations w =? 0)%Z; split; reflexivity. }
  destruct H0 as [Hh0 Hs0]. clearbody w0.
  destruct (constants.NUM_ITERATIONS <=? numIterations w0)%Z.
  { injection Hstep as <-. apply Hkeep. now rewrite Hh0. }
  destruct (notifyAll_entry key _ _ Hstep) as [Hs [Hsame | [Hnew Hgate]]];
    cbn [state history] in *.
  { apply Hkeep. now rewrite Hsame, Hh0. }
  rewrite Hs0 in Hs. rewrite Hh0, Hs0 in Hnew, Hgate.
  rewrite Hs, Hnew. unfold entryFollows, sendsSoFar.
  destruct (history w !! key) as [old |] eqn:Hold;
    cbn [numSends prevTimeSent]; [| split; reflexivity].
  right. split; [reflexivity | split; [reflexivity |]].
  destruct (Hinv key old Hold) as [_ Hprev].
  rewrite time_advance in Hgate |- *.
  destruct Hgate as [Hsentinel | Hgate]; [| exact Hgate].
  exfalso. unfold_constants. lra.
Qed.

Lemma sends_are_spaced_witness :
  exists w w',
    run [] (initialWorld ["id-1"]) = Some w
    /\ step (EvRunSimulation (UaaGranted "token")) w = Some w'
    /\ entryFollows (time (state w')) (history w !! "timeSeries")
                    (history w' !! "timeSeries").
Proof.
  destruct (step (EvRunSimulation (UaaGranted "token")) (initialWorld ["id-1"]))
    as [w' |] eqn:E; [| vm_compute in E; discriminate E].
  exists (initialWorld ["id-1"]), w'.
  split; [reflexivity | split; [exact E |]].
  exact (sends_are_spaced ["id-1"] [] _ _ _ "timeSeries" eq_refl E).
Defined.

(** ** Delivery to a sink that accepts everything *)

Lemma acknowledgeAll_idle (fuel : nat) (s : AssetService.t) :
  AssetService.isOperationInProgress s = false ->
  acknowledgeAll fuel s = (s, []).
Proof. intros H. destruct fuel; cbn; [reflexivity | now rewrite H]. Qed.

Lemma posted_app (io io' : list Effect) :
  posted (io ++ io') = posted io ++ posted io'.
Proof. unfold posted. now rewrite map_app, concat_app. Qed.

Lemma acknowledgeAll_delivers (fuel : nat) (s : AssetService.t) :
  NoDup (keys (AssetService.queue s)) ->
  AssetService.isOperationInProgress s = true ->
  AssetService.itemsInProgress s
  = take constants.MAX_NODES_TO_QUEUE_PER_SEND (AssetService.queue s) ->
  AssetService.queue s <> [] ->
  length (AssetService.queue s) <= fuel ->
  AssetService.queue (fst (acknowledgeAll fuel s)) = []
  /\ AssetService.isFinished (fst (acknowledgeAll fuel s)) = true
  /\ posted (snd (acknowledgeAll fuel s))
     = map assetMessage
           (drop constants.MAX_NODES_TO_QUEUE_PER_SEND (AssetService.queue s)).
Proof.
  revert s. induction fuel as [| fuel IH]; intros s Hnd Hflag Hitems Hne Hlen.
  - destruct (AssetService.queue s); [congruence | cbn in Hlen; lia].
  - cbn [acknowledgeAll]. rewrite Hflag. cbv zeta. cbn [fst snd].
    destruct (handlePostResponse_batch s Hnd Hitems)
      as (Htok & Hq & _ & Hdone & Hmore).
    set (r := AssetService.handlePostResponse true s) in *.
    destruct (drop constants.MAX_NODES_TO_QUEUE_PER_SEND (AssetService.queue s))
      as [| n rest] eqn:Hd.
    + destruct (Hdone eq_refl) as [Hfin Hio].
      assert (Hidle : AssetService.isOperationInProgress (fst r) = false).
      { unfold AssetService.isFinished in Hfin.
        apply andb_true_iff in Hfin as [_ Hfin].
        now apply negb_true_iff in Hfin. }
      rewrite (acknowledgeAll_idle fuel _ Hidle), Hio. cbn [fst snd app].
      repeat split; assumption.
    + destruct (Hmore ltac:(discriminate)) as (Hflag1 & Hitems1 & Hio).
      assert (Hnd1 : NoDup (keys (AssetService.queue (fst r)))).
      { rewrite Hq, <- Hd. unfold keys. rewrite fmap_drop.
        apply (sublist_NoDup _ _ Hnd), sublist_drop. }
      assert (Hlen1 : length (AssetService.queue (fst r)) <= fuel).
      { rewrite Hq, <- Hd, length_drop.
        destruct (AssetService.queue s); [congruence |]. cbn in Hlen |- *.
        unfold constants.MAX_NODES_TO_QUEUE_PER_SEND. lia. }
      destruct (IH (fst r) Hnd1 Hflag1 ltac:(now rewrite Hitems1, Hq)
                   ltac:(now rewrite Hq) Hlen1) as (Hq' & Hfin' & Hposted').
      repeat split; try assumption.
      rewrite posted_app, Hposted', Hio, Hq. unfold posted. cbn [map concat].
      rewrite app_nil_r.
      change (AssetService.buildBody (fst r))
        with (map assetMessage (AssetService.itemsInProgress (fst r))).
      rewrite Hitems1. rewrite <- map_app.
      now rewrite (take_drop constants.MAX_NODES_TO_QUEUE_PER_SEND (n :: rest)).
Qed.

(** X20.  With a sink that accepts every request, nothing is lost, doubled
    or reordered: a drain started idle on a queue with distinct keys, with
    every POST answered by success, leaves the queue empty and the service
    finished, and the messages of all the POST requests together are the
    messages of the queued nodes, each once, in queue order. *)
Theorem asset_delivers_in_order (s : AssetService.t) :
  AssetService.isOperationInProgress s = false ->
  NoDup (keys (AssetService.queue s)) ->
  let drained := AssetService.processAssetData s in
  let r := acknowledgeAll (length (AssetService.queue s)) (fst drained) in
  AssetService.queue (fst r) = []
  /\ AssetService.isFinished (fst r) = true
  /\ posted (snd drained ++ snd r) = map assetMessage (AssetService.queue s).
Proof.
  intros Hidle Hnd drained r. subst r drained.
  destruct (AssetService.queue s) as [| n q] eqn:Eq.
  - destruct (processAssetData_nothing s Hidle Eq) as [Hf Hio].
    rewrite Hio. cbn [length acknowledgeAll fst snd app].
    pose proof (processAssetData_queue s) as Hq. rewrite Eq in Hq.
    repeat split; [exact Hq |].
    unfold AssetService.isFinished. now rewrite Hq, Hf.
  - assert (Hne : AssetService.queue s <> []) by (rewrite Eq; discriminate).
    destruct (processAssetData_start s Hidle Hne) as (Hf & Hi & _ & Hio).
    pose proof (processAssetData_queue s) as Hq.
    set (d := fst (AssetService.processAssetData s)) in *.
    destruct (acknowledgeAll_delivers (length (n :: q)) d)
      as (Hq' & Hfin & Hposted).
    + now rewrite Hq, Eq in *.
    + exact Hf.
    + now rewrite Hq.
    + now rewrite Hq.
    + now rewrite Hq, Eq.
    + repeat split; try assumption.
      rewrite posted_app, Hposted, Hio, Hq. unfold posted. cbn [map concat].
      rewrite app_nil_r.
      change (AssetService.buildBody d)
        with (map assetMessage (AssetService.itemsInProgress d)).
      rewrite Hi, <- map_app, take_drop. now rewrite Eq.
Qed.

Lemma asset_delivers_in_order_witness :
  posted
    (snd (AssetService.processAssetData
            (AssetService.set_queue
               [mkNode "a" (mkAssetData "speed" 28 1 "m");
                mkNode "b" (mkAssetData "speed" 29 200 "m")]
               (AssetService.new "t")))
     ++ snd (acknowledgeAll 2
               (fst (AssetService.processAssetData
                       (AssetService.set_queue
                          [mkNode "a" (mkAssetData "speed" 28 1 "m");
                           mkNode "b" (mkAssetData "speed" 29 200 "m")]
                          (AssetService.new "t"))))))
  = map assetMessage [mkNode "a" (mkAssetData "speed" 28 1 "m");
                      mkNode "b" (mkAssetData "speed" 29 200 "m")].
Proof.
  refine (proj2 (proj2 (asset_delivers_in_order
                          (AssetService.set_queue
                             [mkNode "a" (mkAssetData "speed" 28 1 "m");
                              mkNode "b" (mkAssetData "speed" 29 200 "m")]
                             (AssetService.new "t")) _ _))).
  - reflexivity.
  - cbn. repeat (apply NoDup_cons; split; [set_solver |]). constructor.
Defined.
